(** * telegra: a shallow embedding of [telegra/__init__.py]

    The module is a thin client for the Telegraph publishing API.  The
    embedding follows the Python source declaration by declaration:

    - Python values that cross the wire are the inductive [pyval];
    - a [dict] is an association list in insertion order (CPython dicts keep
      it, and the form payload is serialised in that order);
    - exceptions are the inductive [exn], fallible code returns [exn + A];
    - the client ([class Telegraph]) is state passing over [world], which
      holds the [account] attribute and a log of the POSTs handed to the
      transport;
    - what the module imports from elsewhere ([repr], [json.dumps], [yarl],
      the aiohttp session) is a Variable of Section [Client]. *)

From Stdlib Require Import ZArith List String Ascii Bool Lia DecimalString.
Import ListNotations.
Local Open Scope string_scope.
Local Open Scope Z_scope.

#[local] Set Warnings "-register-all".

(** ** Python values *)

(** The values [json.loads] can produce, which is all a response can hold.
    A [float] is kept as its IEEE-754 bit pattern; only its truth value is
    ever inspected. *)
Inductive pyval : Type :=
| PNone
| PBool (b : bool)
| PInt (z : Z)
| PFloat (bits : Z)
| PStr (s : string)
| PList (l : list pyval)
| PDict (d : list (string * pyval)).

Definition dict (V : Type) : Type := list (string * V).

Module Dict.

(** [d.get(k)] / [k in d]. *)
Fixpoint get {V} (d : dict V) (k : string) : option V :=
  match d with
  | [] => None
  | (k', v) :: d' => if String.eqb k k' then Some v else get d' k
  end.

Definition mem {V} (d : dict V) (k : string) : bool :=
  match get d k with Some _ => true | None => false end.

(** [d[k] = v]: overwrite in place, else append. *)
Fixpoint set {V} (d : dict V) (k : string) (v : V) : dict V :=
  match d with
  | [] => [(k, v)]
  | (k', v') :: d' =>
      if String.eqb k k' then (k', v) :: d' else (k', v') :: set d' k v
  end.

Definition keys {V} (d : dict V) : list string := map fst d.

End Dict.

(** [len(s)] of a [str]; a [string] stands for a [str], one [ascii] for each
    of its characters. *)
Definition len (s : string) : Z := Z.of_nat (String.length s).

(** Truth value testing, [bool(v)]. *)
Definition truthy (v : pyval) : bool :=
  match v with
  | PNone => false
  | PBool b => b
  | PInt z => negb (z =? 0)
  | PFloat bits => negb (Z.land bits 0x7FFFFFFFFFFFFFFF =? 0)
  | PStr s => negb (String.eqb s "")
  | PList l => match l with [] => false | _ => true end
  | PDict d => match d with [] => false | _ => true end
  end.

(** Truth value of an [Optional[str]] argument. *)
Definition truthy_str (o : option string) : bool :=
  match o with
  | Some s => negb (String.eqb s "")
  | None => false
  end.

(** Truth value of an [Optional[int]] argument. *)
Definition truthy_int (o : option Z) : bool :=
  match o with
  | Some z => negb (z =? 0)
  | None => false
  end.

(** [str(n)] for an [int]. *)
Definition str_int (z : Z) : string := NilZero.string_of_int (Z.to_int z).

(** [str(b).lower()] for a [bool]. *)
Definition str_bool_lower (b : bool) : string :=
  if b then "true" else "false".

(** [isinstance(v, str)] and [isinstance(v, int)] ([bool] subclasses [int]). *)
Definition is_str (v : pyval) : bool :=
  match v with PStr _ => true | _ => false end.

Definition is_int (v : pyval) : bool :=
  match v with PInt _ | PBool _ => true | _ => false end.

(** ** Exceptions *)

(** A message is [None] where it is composed by attrs or by the interpreter
    and not by this module.  attrs' [NotAnAttrsClassError] subclasses
    [ValueError] and is raised as such. *)
Inductive exn : Type :=
| ValueError (msg : option string)
| TypeError (msg : option string)
| KeyError (key : string)
| AttributeError
| TelegraphError (arg : pyval)
| TransportError (info : string).

Definition res (A : Type) : Type := (exn + A)%type.

Definition rbind {A B} (m : res A) (k : A -> res B) : res B :=
  match m with
  | inl e => inl e
  | inr a => k a
  end.

Notation "x <-? m ;; k" := (rbind m (fun x => k))
  (at level 61, m at next level, right associativity).
Notation "m ;;? k" := (rbind m (fun _ => k))
  (at level 61, right associativity).

(** The spec's error taxonomy over the Python classes. *)
Definition is_validation_error (e : exn) : bool :=
  match e with
  | ValueError _ | TypeError _ => true
  | _ => false
  end.


(** ** Module constants *)

Definition API_URL : string := "https://api.telegra.ph".

Definition ALLOWED_TAGS : list string :=
  [ "a"; "aside"; "b"; "blockquote"; "br"; "code"; "em"; "figcaption"; "figure";
    "h3"; "h4"; "hr"; "i"; "iframe"; "img"; "li"; "ol"; "p"; "pre"; "s";
    "strong"; "u"; "ul"; "video" ].

(** [value in ALLOWED_TAGS]. *)
Definition in_allowed_tags (t : string) : bool :=
  existsb (String.eqb t) ALLOWED_TAGS.

(** ** [class NodeElement] *)

(** [attrs] and [children] are [Optional]: [None] is Python's [None].  A child
    is a [str] or a [NodeElement].  In [to_dict] below, [if self.attrs:] and
    [if self.children:] are the matches on a non-empty list. *)
Inductive NodeElement : Type :=
  Build_NodeElement {
    tag : string;
    attrs : option (dict string);
    children : option (list (string + NodeElement))
  }.

(** A [Dict[str, str]] as a value. *)
Definition str_dict (d : dict string) : pyval :=
  PDict (map (fun kv => (fst kv, PStr (snd kv))) d).

Fixpoint to_dict (self : NodeElement) : dict pyval :=
  match self with
  | Build_NodeElement tag0 attrs0 children0 =>
      let result := [("tag", PStr tag0)] in
      let result :=
        match attrs0 with
        | Some (a :: al) => Dict.set result "attrs" (str_dict (a :: al))
        | _ => result
        end in
      let result :=
        match children0 with
        | Some (c :: cl) =>
            Dict.set result "children"
              (PList (map (fun child =>
                             match child with
                             | inl s => PStr s
                             | inr e => PDict (to_dict e)
                             end) (c :: cl)))
        | _ => result
        end in
      result
  end.

(** The element written at the call sites,
    [node if isinstance(node, str) else node.to_dict()]. *)
Definition wire (node : string + NodeElement) : pyval :=
  match node with
  | inl s => PStr s
  | inr e => PDict (to_dict e)
  end.

(** ** Calling conventions of the interpreter *)

(** Keyword unpacking, [**v] at a call: [v] must be a mapping. *)
Definition unpack (v : pyval) : res (dict pyval) :=
  match v with
  | PDict d => inr d
  | _ => inl (TypeError None)
  end.

(** Binding keywords against a signature: an unexpected keyword or a missing
    required one is a [TypeError]. *)
Definition bind_kwargs (params required : list string) (kw : dict pyval)
  : res unit :=
  if forallb (fun k => existsb (String.eqb k) params) (Dict.keys kw) then
    if forallb (Dict.mem kw) required then inr tt else inl (TypeError None)
  else inl (TypeError None).

(** The value bound to parameter [k], [None] being every default here. *)
Definition arg (kw : dict pyval) (k : string) : pyval :=
  match Dict.get kw k with
  | Some v => v
  | None => PNone
  end.

(** [v[k]] with a [str] key. *)
Definition getitem (v : pyval) (k : string) : res pyval :=
  match v with
  | PDict d =>
      match Dict.get d k with
      | Some x => inr x
      | None => inl (KeyError k)
      end
  | _ => inl (TypeError None)
  end.

(** [v.get(k)]: only a [dict] has the method. *)
Definition method_get (v : pyval) (k : string) : res pyval :=
  match v with
  | PDict d => inr (arg d k)
  | _ => inl AttributeError
  end.

(** [for x in v]. *)
Definition iter (v : pyval) : res (list pyval) :=
  match v with
  | PList l => inr l
  | PDict d => inr (map PStr (Dict.keys d))
  | PStr s => inr (map (fun c => PStr (String c EmptyString)) (list_ascii_of_string s))
  | _ => inl (TypeError None)
  end.

(** A list comprehension whose element expression can raise. *)
Fixpoint comprehension {A B} (f : A -> res B) (l : list A) : res (list B) :=
  match l with
  | [] => inr []
  | x :: l' => y <-? f x ;; ys <-? comprehension f l' ;; inr (y :: ys)
  end.

(** [str(type(v))]. *)
Definition type_str (v : pyval) : string :=
  match v with
  | PNone => "<class 'NoneType'>"
  | PBool _ => "<class 'bool'>"
  | PInt _ => "<class 'int'>"
  | PFloat _ => "<class 'float'>"
  | PStr _ => "<class 'str'>"
  | PList _ => "<class 'list'>"
  | PDict _ => "<class 'dict'>"
  end.

(** ** The attrs classes, as records of attribute values *)

Module TelegraphResult.
Record t : Type := Build { ok : pyval; result : pyval; error : pyval }.
Definition params : list string := ["ok"; "result"; "error"].
End TelegraphResult.

Module Account.
Record t : Type :=
  Build {
    short_name : pyval;
    author_name : pyval;
    author_url : pyval;
    access_token : pyval;
    auth_url : pyval;
    page_count : pyval
  }.
Definition params : list string :=
  ["short_name"; "author_name"; "author_url"; "access_token"; "auth_url";
   "page_count"].

(** [getattr(a, f)] for [f] among [params]. *)
Definition getattr (a : t) (f : string) : pyval :=
  if String.eqb f "short_name" then short_name a
  else if String.eqb f "author_name" then author_name a
  else if String.eqb f "author_url" then author_url a
  else if String.eqb f "access_token" then access_token a
  else if String.eqb f "auth_url" then auth_url a
  else if String.eqb f "page_count" then page_count a
  else PNone.
End Account.

Module Page.
Record t : Type :=
  Build {
    path : pyval;
    url : pyval;
    title : pyval;
    description : pyval;
    author_name : pyval;
    author_url : pyval;
    image_url : pyval;
    content : pyval;
    views : pyval;
    can_edit : pyval
  }.
Definition params : list string :=
  ["path"; "url"; "title"; "description"; "author_name"; "author_url";
   "image_url"; "content"; "views"; "can_edit"].
End Page.

Module PageList.
Record t : Type := Build { total_count : pyval; pages : list Page.t }.
Definition params : list string := ["total_count"; "pages"].
End PageList.

Module PageViews.
Record t : Type := Build { views : pyval }.
Definition params : list string := ["views"].
End PageViews.

(** ** The client's state *)

(** One POST handed to the transport: the URL and the form fields. *)
Definition post_call : Type := (string * dict string)%type.

(** [account] is [Telegraph.account]; [posts] logs, oldest first, every call
    of [session.post]. *)
Record world : Type :=
  Build_world { account : option Account.t; posts : list post_call }.

Definition M (A : Type) : Type := world -> res A * world.

Definition ret {A} (a : A) : M A := fun w => (inr a, w).

Definition raise {A} (e : exn) : M A := fun w => (inl e, w).

Definition bind {A B} (m : M A) (k : A -> M B) : M B :=
  fun w =>
    match m w with
    | (inl e, w') => (inl e, w')
    | (inr a, w') => k a w'
    end.

Definition lift {A} (r : res A) : M A := fun w => (r, w).

Definition get_account : M (option Account.t) := fun w => (inr (account w), w).

Definition set_account (a : option Account.t) : M unit :=
  fun w => (inr tt, Build_world a (posts w)).

Notation "x <- m ; k" := (bind m (fun x => k))
  (at level 61, m at next level, right associativity).
Notation "m ;; k" := (bind m (fun _ => k))
  (at level 61, right associativity).

Section Client.

(** What the module takes from outside the repository. *)

(** The built-in [repr]. *)
Variable repr : pyval -> string.
(** [json.dumps]. *)
Variable json_dumps : pyval -> string.
(** [str(URL(base) / path)] of yarl. *)
Variable url_join : string -> string -> string.
(** The session: [session.post(url, data=data)], [resp.raise_for_status()]
    and [await resp.json()] in one; [inl] is whatever they raise. *)
Variable post : string -> dict string -> string + pyval.

(** *** Validators *)

(** The closure [validate] that [length(min, max)] returns; [attribute] is
    [attribute.name]. *)
Definition validate (min max : option Z) (attribute : string) (value : pyval)
  : res unit :=
  match value with
  | PNone => inr tt
  | PStr s =>
      match min with
      | Some lo =>
          if len s <? lo then
            inl (ValueError (Some ("The attribute " ++ attribute
               ++ " length must be at least " ++ str_int lo
               ++ " (got " ++ str_int (len s) ++ ").")))
          else inr tt
      | None => inr tt
      end ;;?
      match max with
      | Some hi =>
          if hi <? len s then
            inl (ValueError (Some ("The attribute " ++ attribute
               ++ " length must be at most " ++ str_int hi
               ++ " (got " ++ str_int (len s) ++ ").")))
          else inr tt
      | None => inr tt
      end
  | _ =>
      inl (TypeError (Some ("The attribute " ++ attribute
         ++ " must be a string (got " ++ repr value
         ++ " that is a " ++ type_str value ++ ").")))
  end.

Definition length (min max : option Z)
  : res (string -> pyval -> res unit) :=
  match min, max with
  | None, None => inl (ValueError (Some "At least min or max must be specified."))
  | _, _ => inr (validate min max)
  end.

(** attrs' [instance_of(str)], [instance_of(int)], [optional(v)] and
    [in_(ALLOWED_TAGS)]. *)
Definition instance_of_str (value : pyval) : res unit :=
  if is_str value then inr tt else inl (TypeError None).

Definition instance_of_int (value : pyval) : res unit :=
  if is_int value then inr tt else inl (TypeError None).

Definition optional (validator : pyval -> res unit) (value : pyval)
  : res unit :=
  match value with
  | PNone => inr tt
  | _ => validator value
  end.

Definition in_ALLOWED_TAGS (value : pyval) : res unit :=
  match value with
  | PStr s => if in_allowed_tags s then inr tt else inl (ValueError None)
  | _ => inl (ValueError None)
  end.

(** *** Constructors of the attrs classes *)

(** [NodeElement(tag, attrs, children)]: the generated [__init__] runs the
    validators of [tag]; [attrs] and [children] have none. *)
Definition NodeElement_init (tag0 : pyval) (attrs0 : option (dict string))
  (children0 : option (list (string + NodeElement))) : res NodeElement :=
  instance_of_str tag0 ;;?
  in_ALLOWED_TAGS tag0 ;;?
  match tag0 with
  | PStr s => inr (Build_NodeElement s attrs0 children0)
  | _ => inl (TypeError None)
  end.

Definition TelegraphResult_init (kw : dict pyval) : res TelegraphResult.t :=
  bind_kwargs TelegraphResult.params ["ok"] kw ;;?
  inr (TelegraphResult.Build (arg kw "ok") (arg kw "result") (arg kw "error")).

(** Validators run in the order of the fields, a list of validators in its
    own order. *)
Definition Account_init (kw : dict pyval) : res Account.t :=
  bind_kwargs Account.params ["short_name"] kw ;;?
  let self :=
    Account.Build (arg kw "short_name") (arg kw "author_name")
      (arg kw "author_url") (arg kw "access_token") (arg kw "auth_url")
      (arg kw "page_count") in
  instance_of_str (Account.short_name self) ;;?
  validate (Some 1) (Some 32) "short_name" (Account.short_name self) ;;?
  optional (validate None (Some 128) "author_name") (Account.author_name self) ;;?
  optional (validate None (Some 512) "author_url") (Account.author_url self) ;;?
  inr self.

Definition Page_init (kw : dict pyval) : res Page.t :=
  bind_kwargs Page.params ["path"; "url"; "title"; "description"] kw ;;?
  let self :=
    Page.Build (arg kw "path") (arg kw "url") (arg kw "title")
      (arg kw "description") (arg kw "author_name") (arg kw "author_url")
      (arg kw "image_url") (arg kw "content") (arg kw "views")
      (arg kw "can_edit") in
  instance_of_str (Page.path self) ;;?
  instance_of_str (Page.url self) ;;?
  instance_of_str (Page.title self) ;;?
  instance_of_str (Page.description self) ;;?
  inr self.

(** [kw] is [response.result] with its key ["pages"] rebound to [pages0],
    the list of [Page] objects built from it. *)
Definition PageList_init (kw : dict pyval) (pages0 : list Page.t)
  : res PageList.t :=
  bind_kwargs PageList.params ["total_count"; "pages"] kw ;;?
  instance_of_int (arg kw "total_count") ;;?
  inr (PageList.Build (arg kw "total_count") pages0).

Definition PageViews_init (kw : dict pyval) : res PageViews.t :=
  bind_kwargs PageViews.params ["views"] kw ;;?
  instance_of_int (arg kw "views") ;;?
  inr (PageViews.Build (arg kw "views")).

(** [attrs.evolve(inst, **changes)] at class [Account]: every field not in
    [changes] is read from [inst], then the class is called.  On [None],
    [fields(NoneType)] raises [NotAnAttrsClassError]. *)
Definition evolve (inst : option Account.t) (changes : dict pyval)
  : res Account.t :=
  match inst with
  | None => inl (ValueError None)
  | Some a =>
      Account_init
        (fold_left
           (fun ch f =>
              if Dict.mem ch f then ch else Dict.set ch f (Account.getattr a f))
           Account.params changes)
  end.

(** *** [class Telegraph] *)

(** [Telegraph.__init__]: no account is held, nothing was sent. *)
Definition Telegraph_init : world := Build_world None [].

(** [Telegraph._request].  The [except ... raise] re-raises and the
    [finally] only closes a session the call created itself; neither touches
    [self.account]. *)
Definition _request (method path : string) (data : dict string)
  : M TelegraphResult.t :=
  fun w =>
    let url := url_join API_URL path in
    let w' := Build_world (account w) (posts w ++ [(url, data)]) in
    match post url data with
    | inl info => (inl (TransportError info), w')
    | inr result =>
        (ok <-? getitem result "ok" ;;
         if negb (truthy ok) then
           error <-? getitem result "error" ;;
           inl (TelegraphError error)
         else
           kw <-? unpack result ;;
           TelegraphResult_init kw,
         w')
    end.

(** [if v: data[k] = v] for an [Optional[str]] argument. *)
Definition put_if (data : dict string) (k : string) (v : option string)
  : dict string :=
  match v with
  | Some s => if truthy_str v then Dict.set data k s else data
  | None => data
  end.

Definition createAccount (short_name : string)
  (author_name author_url : option string) : M Account.t :=
  let data := [("short_name", short_name)] in
  let data := put_if data "author_name" author_name in
  let data := put_if data "author_url" author_url in
  response <- _request "POST" "createAccount" data ;
  a <- lift (kw <-? unpack (TelegraphResult.result response) ;; Account_init kw) ;
  set_account (Some a) ;;
  ret a.

(** The three methods below return [self.account], which is [None] when no
    account is held and the result is empty. *)
Definition editAccountInfo (access_token : string)
  (short_name author_name author_url : option string)
  : M (option Account.t) :=
  let data := [("access_token", access_token)] in
  let data := put_if data "short_name" short_name in
  let data := put_if data "author_name" author_name in
  let data := put_if data "author_url" author_url in
  response <- _request "POST" "editAccountInfo" data ;
  (if truthy (TelegraphResult.result response) then
     held <- get_account ;
     a <- lift (kw <-? unpack (TelegraphResult.result response) ;; evolve held kw) ;
     set_account (Some a)
   else ret tt) ;;
  get_account.

Definition getAccountInfo (access_token : string)
  (fields : option (list string)) : M (option Account.t) :=
  let data := [("access_token", access_token)] in
  let data :=
    match fields with
    | Some (f :: fl) =>
        Dict.set data "fields" (json_dumps (PList (map PStr (f :: fl))))
    | _ => data
    end in
  response <- _request "POST" "getAccountInfo" data ;
  (if truthy (TelegraphResult.result response) then
     held <- get_account ;
     a <- lift (kw <-? unpack (TelegraphResult.result response) ;; evolve held kw) ;
     set_account (Some a)
   else ret tt) ;;
  get_account.

Definition revokeAccessToken (access_token : string)
  : M (option Account.t) :=
  let data := [("access_token", access_token)] in
  response <- _request "POST" "revokeAccessToken" data ;
  (if truthy (TelegraphResult.result response) then
     held <- get_account ;
     a <- lift (token <-? method_get (TelegraphResult.result response) "access_token" ;;
                auth <-? method_get (TelegraphResult.result response) "auth_url" ;;
                evolve held [("access_token", token); ("auth_url", auth)]) ;
     set_account (Some a)
   else ret tt) ;;
  get_account.

(** [if v: check len(v); data[k] = v] for an [Optional[str]] argument. *)
Definition put_checked (data : dict string) (k : string) (v : option string)
  (lo hi : Z) (msg : string) : res (dict string) :=
  match v with
  | Some s =>
      if truthy_str v then
        if negb ((lo <=? len s) && (len s <=? hi)) then
          inl (ValueError (Some msg))
        else inr (Dict.set data k s)
      else inr data
  | None => inr data
  end.

Definition createPage (access_token title : string)
  (content : list (string + NodeElement))
  (author_name author_url : option string) (return_content : bool)
  : M Page.t :=
  if negb ((1 <=? len title) && (len title <=? 256)) then
    raise (ValueError (Some "Title must be between 1 and 256 characters"))
  else
    let data :=
      [ ("access_token", access_token);
        ("title", title);
        ("content", json_dumps (PList (map wire content)));
        ("return_content", str_bool_lower return_content) ] in
    data <- lift (put_checked data "author_name" author_name 0 128
                    "Author name must be between 0 and 128 characters") ;
    data <- lift (put_checked data "author_url" author_url 0 512
                    "Author URL must be between 0 and 512 characters") ;
    response <- _request "POST" "createPage" data ;
    lift (kw <-? unpack (TelegraphResult.result response) ;; Page_init kw).

Definition editPage (access_token path title : string)
  (content : list (string + NodeElement))
  (author_name author_url : option string) (return_content : bool)
  : M Page.t :=
  if negb ((1 <=? len title) && (len title <=? 256)) then
    raise (ValueError (Some "Title must be between 1 and 256 characters"))
  else
    let data :=
      [ ("access_token", access_token);
        ("path", path);
        ("title", title);
        ("content", json_dumps (PList (map wire content)));
        ("return_content", str_bool_lower return_content) ] in
    data <- lift (put_checked data "author_name" author_name 0 128
                    "Author name must be between 0 and 128 characters") ;
    data <- lift (put_checked data "author_url" author_url 0 512
                    "Author URL must be between 0 and 512 characters") ;
    response <- _request "POST" ("editPage/" ++ path) data ;
    lift (kw <-? unpack (TelegraphResult.result response) ;; Page_init kw).

Definition getPage (path : string) (return_content : bool) : M Page.t :=
  let data := [("return_content", str_bool_lower return_content)] in
  response <- _request "POST" ("getPage/" ++ path) data ;
  lift (kw <-? unpack (TelegraphResult.result response) ;; Page_init kw).

Definition getPageList (access_token : string) (offset limit : Z)
  : M PageList.t :=
  if negb (0 <=? offset) then
    raise (ValueError (Some "Offset must be a non-negative integer"))
  else if negb ((0 <=? limit) && (limit <=? 200)) then
    raise (ValueError (Some "Limit must be between 0 and 200"))
  else
    let data :=
      [ ("access_token", access_token);
        ("offset", str_int offset);
        ("limit", str_int limit) ] in
    response <- _request "POST" "getPageList" data ;
    lift (raw <-? getitem (TelegraphResult.result response) "pages" ;;
          items <-? iter raw ;;
          pages0 <-? comprehension
                       (fun page => kw <-? unpack page ;; Page_init kw) items ;;
          kw <-? unpack (TelegraphResult.result response) ;;
          PageList_init kw pages0).

(** [if v: check v; data[k] = str(v)] for an [Optional[int]] argument. *)
Definition put_int_checked (data : dict string) (k : string) (v : option Z)
  (lo hi : Z) (msg : string) : res (dict string) :=
  match v with
  | Some z =>
      if truthy_int v then
        if negb ((lo <=? z) && (z <=? hi)) then inl (ValueError (Some msg))
        else inr (Dict.set data k (str_int z))
      else inr data
  | None => inr data
  end.

Definition getViews (path : string) (year month day hour : option Z)
  : M PageViews.t :=
  let data := [] in
  data <- lift (put_int_checked data "year" year 2000 2100
                  "Year must be between 2000 and 2100") ;
  data <- lift (put_int_checked data "month" month 1 12
                  "Month must be between 1 and 12") ;
  data <- lift (put_int_checked data "day" day 1 31
                  "Day must be between 1 and 31") ;
  data <- lift (put_int_checked data "hour" hour 0 24
                  "Hour must be between 0 and 24") ;
  response <- _request "POST" ("getViews/" ++ path) data ;
  lift (kw <-? unpack (TelegraphResult.result response) ;; PageViews_init kw).

End Client.

(** ** Stand-ins for the outside world, used to run the client on examples *)

Definition repr0 (v : pyval) : string := "?".
Definition dumps0 (v : pyval) : string := "?".
Definition join0 (base path : string) : string := base ++ "/" ++ path.

(** A transport stub that answers every POST with the same decoded body. *)
Definition answer (body : pyval) : string -> dict string -> string + pyval :=
  fun _ _ => inr body.

(** A transport stub that fails every POST. *)
Definition refuse (info : string) : string -> dict string -> string + pyval :=
  fun _ _ => inl info.

Definition held (a : Account.t) : world := Build_world (Some a) [].

Definition account_T1 : Account.t :=
  Account.Build (PStr "old") PNone PNone (PStr "T1") PNone PNone.

Definition account_new : Account.t :=
  Account.Build (PStr "new") PNone PNone (PStr "T1") PNone PNone.

(** Decoded response bodies. *)
Definition not_found : dict pyval :=
  [("ok", PBool false); ("error", PStr "PAGE_NOT_FOUND")].

Definition renamed : dict pyval :=
  [("ok", PBool true); ("result", PDict [("short_name", PStr "new")])].

Definition no_pages : dict pyval :=
  [("ok", PBool true);
   ("result", PDict [("total_count", PInt 0); ("pages", PList [])])].


(** An answer to [createAccount]. *)
Definition created : dict pyval :=
  [("ok", PBool true);
   ("result", PDict [("short_name", PStr "new"); ("access_token", PStr "T1")])].

(** An answer to [revokeAccessToken], and the account it leaves. *)
Definition revoked : dict pyval :=
  [("ok", PBool true);
   ("result", PDict [("access_token", PStr "T2");
                     ("auth_url", PStr "https://edit.telegra.ph/auth/T2")])].

Definition account_T2 : Account.t :=
  Account.Build (PStr "old") PNone PNone (PStr "T2")
    (PStr "https://edit.telegra.ph/auth/T2") PNone.

(** ** Vocabulary of the statements *)

(** [n] lies in the closed interval; an absent bound does not constrain. *)
Definition within (min max : option Z) (n : Z) : Prop :=
  match min with Some lo => lo <= n | None => True end /\
  match max with Some hi => n <= hi | None => True end.

(** Between [w] and [w'] exactly one POST went out, and the transport [post]
    answered it with the decoded body [body]. *)
Definition answered (post : string -> dict string -> string + pyval)
  (w w' : world) (body : pyval) : Prop :=
  exists url data,
    posts w' = (posts w ++ [(url, data)])%list /\ post url data = inr body.

(** An [Optional] argument that is provided, nonzero and outside [lo, hi]. *)
Definition out_of_range (v : option Z) (lo hi : Z) : Prop :=
  exists z, v = Some z /\ z <> 0 /\ (z < lo \/ hi < z).

(** An [Optional[str]] argument that is provided and longer than [hi]. *)
Definition too_long (v : option string) (hi : Z) : Prop :=
  exists s, v = Some s /\ hi < len s.

(** The public coroutines of [Telegraph] behind one type, so that a statement
    can range over every operation. *)
Inductive call : Type :=
| CreateAccount (short_name : string) (author_name author_url : option string)
| EditAccountInfo (access_token : string)
    (short_name author_name author_url : option string)
| GetAccountInfo (access_token : string) (fields : option (list string))
| RevokeAccessToken (access_token : string)
| CreatePage (access_token title : string)
    (content : list (string + NodeElement))
    (author_name author_url : option string) (return_content : bool)
| EditPage (access_token path title : string)
    (content : list (string + NodeElement))
    (author_name author_url : option string) (return_content : bool)
| GetPage (path : string) (return_content : bool)
| GetPageList (access_token : string) (offset limit : Z)
| GetViews (path : string) (year month day hour : option Z).

(** What an operation returns. *)
Inductive entity : Type :=
| EAccount (a : option Account.t)
| EPage (p : Page.t)
| EPageList (l : PageList.t)
| EPageViews (v : PageViews.t).

(** [perform c] awaits the method [c] names, with its arguments. *)
Definition perform (repr json_dumps : pyval -> string)
  (url_join : string -> string -> string)
  (post : string -> dict string -> string + pyval) (c : call) : M entity :=
  match c with
  | CreateAccount sn an au =>
      a <- createAccount repr url_join post sn an au ; ret (EAccount (Some a))
  | EditAccountInfo t sn an au =>
      a <- editAccountInfo repr url_join post t sn an au ; ret (EAccount a)
  | GetAccountInfo t f =>
      a <- getAccountInfo repr json_dumps url_join post t f ; ret (EAccount a)
  | RevokeAccessToken t =>
      a <- revokeAccessToken repr url_join post t ; ret (EAccount a)
  | CreatePage t ti c an au rc =>
      p <- createPage json_dumps url_join post t ti c an au rc ; ret (EPage p)
  | EditPage t pa ti c an au rc =>
      p <- editPage json_dumps url_join post t pa ti c an au rc ; ret (EPage p)
  | GetPage pa rc => p <- getPage url_join post pa rc ; ret (EPage p)
  | GetPageList t o l =>
      l <- getPageList url_join post t o l ; ret (EPageList l)
  | GetViews pa y m d h =>
      v <- getViews url_join post pa y m d h ; ret (EPageViews v)
  end.

(** What the operation [c] makes of the result payload of an answer: the
    object of its class built from the payload; for the three operations
    that overlay, the held Account when the payload is falsy and else the
    held Account with the payload laid over it by [attrs.evolve]. *)
Definition decode (repr : pyval -> string) (c : call)
  (held : option Account.t) (result : pyval) : res entity :=
  match c with
  | CreateAccount _ _ _ =>
      a <-? (kw <-? unpack result ;; Account_init repr kw) ;;
      inr (EAccount (Some a))
  | EditAccountInfo _ _ _ _ | GetAccountInfo _ _ =>
      if truthy result then
        a <-? (kw <-? unpack result ;; evolve repr held kw) ;;
        inr (EAccount (Some a))
      else inr (EAccount held)
  | RevokeAccessToken _ =>
      if truthy result then
        a <-? (token <-? method_get result "access_token" ;;
               auth <-? method_get result "auth_url" ;;
               evolve repr held [("access_token", token); ("auth_url", auth)]) ;;
        inr (EAccount (Some a))
      else inr (EAccount held)
  | CreatePage _ _ _ _ _ _ | EditPage _ _ _ _ _ _ _ | GetPage _ _ =>
      p <-? (kw <-? unpack result ;; Page_init kw) ;; inr (EPage p)
  | GetPageList _ _ _ =>
      l <-? (raw <-? getitem result "pages" ;;
             items <-? iter raw ;;
             pages0 <-? comprehension
                          (fun page => kw <-? unpack page ;; Page_init kw)
                          items ;;
             kw <-? unpack result ;;
             PageList_init kw pages0) ;;
      inr (EPageList l)
  | GetViews _ _ _ _ _ =>
      v <-? (kw <-? unpack result ;; PageViews_init kw) ;; inr (EPageViews v)
  end.

(** [after] is [before] with the fields of [result] laid over it: nothing
    moves when [result] is falsy; otherwise [result] is a dict, an account
    was held, and each field is the dict's value when the dict has the key
    and the held value when it has not. *)
Definition overlaid (before after : option Account.t) (result : pyval) : Prop :=
  (truthy result = false -> after = before) /\
  (truthy result = true ->
   exists kw old new,
     result = PDict kw /\ before = Some old /\ after = Some new /\
     forall f, In f Account.params ->
       Account.getattr new f
       = match Dict.get kw f with
         | Some v => v
         | None => Account.getattr old f
         end).

(** The same for [revokeAccessToken]: only [access_token] and [auth_url] are
    replaced, by [result.get(...)]. *)
Definition token_overlaid (before after : option Account.t) (result : pyval)
  : Prop :=
  (truthy result = false -> after = before) /\
  (truthy result = true ->
   exists kw old,
     result = PDict kw /\ before = Some old /\
     after = Some (Account.Build (Account.short_name old)
                     (Account.author_name old) (Account.author_url old)
                     (arg kw "access_token") (arg kw "auth_url")
                     (Account.page_count old))).

(** ** Vocabulary of the further properties *)

(** The path an operation posts to, below [API_URL]. *)
Definition endpoint (c : call) : string :=
  match c with
  | CreateAccount _ _ _ => "createAccount"
  | EditAccountInfo _ _ _ _ => "editAccountInfo"
  | GetAccountInfo _ _ => "getAccountInfo"
  | RevokeAccessToken _ => "revokeAccessToken"
  | CreatePage _ _ _ _ _ _ => "createPage"
  | EditPage _ path _ _ _ _ _ => "editPage/" ++ path
  | GetPage path _ => "getPage/" ++ path
  | GetPageList _ _ _ => "getPageList"
  | GetViews path _ _ _ _ => "getViews/" ++ path
  end.

(** The operations that check an argument before they post. *)
Definition checks_arguments (c : call) : bool :=
  match c with
  | CreatePage _ _ _ _ _ _ | EditPage _ _ _ _ _ _ _
  | GetPageList _ _ _ | GetViews _ _ _ _ _ => true
  | _ => false
  end.

(** The operations that assign [self.account]. *)
Definition is_account_call (c : call) : bool :=
  match c with
  | CreateAccount _ _ _ | EditAccountInfo _ _ _ _
  | GetAccountInfo _ _ | RevokeAccessToken _ => true
  | _ => false
  end.

(** What the validators of [Account] let through: [short_name] a string of
    1 to 32 characters, [author_name] and [author_url] [None] or a string of
    at most 128, respectively 512, characters. *)
Definition valid_account (a : Account.t) : Prop :=
  (exists s, Account.short_name a = PStr s /\ 1 <= len s <= 32) /\
  (Account.author_name a = PNone \/
   exists s, Account.author_name a = PStr s /\ len s <= 128) /\
  (Account.author_url a = PNone \/
   exists s, Account.author_url a = PStr s /\ len s <= 512).

(** The keywords [kw] bind against a signature: each is a parameter and each
    required parameter is among them. *)
Definition kwargs_fit (params required : list string) (kw : dict pyval)
  : Prop :=
  (forall k, In k (Dict.keys kw) -> In k params) /\
  (forall k, In k required -> Dict.mem kw k = true).

(** The client holds no account or one that the validators let through. *)
Definition valid_world (w : world) : Prop :=
  match account w with
  | Some a => valid_account a
  | None => True
  end.

(** A caller that awaits one call after the other on the same client, each
    against the transport of its moment, and catches whatever is raised. *)
Fixpoint session (repr json_dumps : pyval -> string)
  (url_join : string -> string -> string)
  (steps : list ((string -> dict string -> string + pyval) * call))
  (w : world) : world :=
  match steps with
  | [] => w
  | (post, c) :: rest =>
      session repr json_dumps url_join rest
        (snd (perform repr json_dumps url_join post c w))
  end.

(** The four required attributes of a [Page] are strings. *)
Definition page_typed (p : Page.t) : Prop :=
  is_str (Page.path p) = true /\ is_str (Page.url p) = true /\
  is_str (Page.title p) = true /\ is_str (Page.description p) = true.

(** What a caller can rely on in a returned object. *)
Definition entity_typed (e : entity) : Prop :=
  match e with
  | EAccount (Some a) => valid_account a
  | EAccount None => True
  | EPage p => page_typed p
  | EPageList l =>
      is_int (PageList.total_count l) = true /\
      Forall page_typed (PageList.pages l)
  | EPageViews v => is_int (PageViews.views v) = true
  end.

(** What [if v: data[k] = v] leaves under [k] in a payload that had no [k]. *)
Definition sent_if (v : option string) : option string :=
  if truthy_str v then v else None.

(** The tree with every empty [attrs] and every empty [children], at any
    depth, replaced by [None]. *)
Fixpoint prune (e : NodeElement) : NodeElement :=
  match e with
  | Build_NodeElement tag0 attrs0 children0 =>
      Build_NodeElement tag0
        match attrs0 with
        | Some (a :: al) => Some (a :: al)
        | _ => None
        end
        match children0 with
        | Some (c :: cl) =>
            Some (map (fun child =>
                         match child with
                         | inl s => inl s
                         | inr e' => inr (prune e')
                         end) (c :: cl))
        | _ => None
        end
  end.

(** An envelope that reports a failure and names no error. *)
Definition no_error : dict pyval := [("ok", PBool false)].

(** An answer that carries one page. *)
Definition one_page : dict pyval :=
  [("ok", PBool true);
   ("result",
    PDict [("total_count", PInt 1);
           ("pages",
            PList [PDict [("path", PStr "Sample-Page");
                          ("url", PStr "https://telegra.ph/Sample-Page");
                          ("title", PStr "Sample");
                          ("description", PStr "")]])])].

(** The [Page] that [one_page] carries. *)
Definition sample_page : Page.t :=
  Page.Build (PStr "Sample-Page") (PStr "https://telegra.ph/Sample-Page")
    (PStr "Sample") (PStr "") PNone PNone PNone PNone PNone PNone.

(** ** Dictionaries *)

Lemma get_set_same {V} (d : dict V) k v : Dict.get (Dict.set d k v) k = Some v.
Proof.
  induction d as [|[k' v'] d IH]; simpl.
  - now rewrite String.eqb_refl.
  - destruct (String.eqb k k') eqn:E; simpl; rewrite E; auto.
Qed.

Lemma get_set_other {V} (d : dict V) k k' v :
  String.eqb k' k = false -> Dict.get (Dict.set d k v) k' = Dict.get d k'.
Proof.
  intros Hne. induction d as [|[k0 v0] d IH]; simpl.
  - now rewrite Hne.
  - destruct (String.eqb k k0) eqn:E; simpl.
    + apply String.eqb_eq in E. subst k0. now rewrite Hne.
    + now rewrite IH.
Qed.

Lemma mem_keys {V} (d : dict V) k : Dict.mem d k = true -> In k (Dict.keys d).
Proof.
  unfold Dict.mem. induction d as [|[k' v] d IH]; simpl.
  - discriminate.
  - destruct (String.eqb_spec k k'); auto.
Qed.

Lemma inr_inj {A B} (x y : B) : @inr A B x = inr y -> x = y.
Proof. now inversion 1. Qed.

Lemma len_pos_nonempty s : 0 < len s -> String.eqb s "" = false.
Proof. destruct s; [unfold len; simpl; lia | reflexivity]. Qed.

(** ** The content node *)

(** C1: [to_dict] always has the key "tag"; it has "attrs" exactly when
    [attrs] is neither [None] nor empty, and "children" exactly when
    [children] is neither [None] nor empty; it has no other key; the
    children are transformed one by one, a [str] child being passed through
    as the bare string and an element child by [to_dict] again.  As a Rocq
    function [to_dict] is pure and defined on every tree. *)
Theorem to_dict_wire_form (e : NodeElement) :
  Dict.get (to_dict e) "tag" = Some (PStr (tag e)) /\
  (Dict.mem (to_dict e) "attrs" = true <->
     attrs e <> None /\ attrs e <> Some []) /\
  (Dict.mem (to_dict e) "children" = true <->
     children e <> None /\ children e <> Some []) /\
  (forall a, attrs e = Some a -> a <> [] ->
     Dict.get (to_dict e) "attrs" = Some (str_dict a)) /\
  (forall cs, children e = Some cs -> cs <> [] ->
     Dict.get (to_dict e) "children" = Some (PList (map wire cs))) /\
  (forall k, Dict.mem (to_dict e) k = true -> In k ["tag"; "attrs"; "children"]) /\
  (forall s, wire (inl s) = PStr s) /\
  (forall c, wire (inr c) = PDict (to_dict c)).
Proof.
  destruct e as [t [[|a al]|] [[|c cl]|]]; unfold Dict.mem at 1 2; simpl;
    repeat match goal with |- _ /\ _ => split end;
    try reflexivity;
    try (split; [discriminate
                | intros [H1 H2]; first [now elim H1 | now elim H2]]);
    try (split; [split; discriminate | reflexivity]);
    try (intros x Hx Hne; injection Hx as <-; congruence || reflexivity);
    try (intros x Hx Hne; discriminate Hx);
    try (intros k Hk; apply mem_keys in Hk; simpl in Hk; intuition).
Qed.

Lemma to_dict_wire_form_witness :
  Dict.get (to_dict (Build_NodeElement "p" (Some [("id", "x")]) (Some [inl "hi"])))
    "children" = Some (PList [PStr "hi"]).
Proof.
  apply (proj1 (proj2 (proj2 (proj2 (proj2
           (to_dict_wire_form
              (Build_NodeElement "p" (Some [("id", "x")]) (Some [inl "hi"])))))))
           [inl "hi"]).
  - reflexivity.
  - discriminate.
Defined.

Lemma ALLOWED_TAGS_NoDup : NoDup ALLOWED_TAGS.
Proof.
  unfold ALLOWED_TAGS.
  repeat (constructor;
          [ simpl; intros H;
            repeat (destruct H as [H | H]; [discriminate H |]); exact H | ]).
  constructor.
Qed.

(** C2, as the source has it: [ALLOWED_TAGS] is a closed set of 24 distinct
    tags; constructing an element with a tag outside it, such as "script",
    fails with a [ValueError]; every member passes the check and the element
    is built. *)
Theorem allowed_tags_closed :
  NoDup ALLOWED_TAGS /\
  Datatypes.length ALLOWED_TAGS = 24%nat /\
  (forall t a c, ~ In t ALLOWED_TAGS ->
     exists e, NodeElement_init (PStr t) a c = inl e /\
               is_validation_error e = true) /\
  (forall a c, NodeElement_init (PStr "script") a c = inl (ValueError None)) /\
  (forall t a c, In t ALLOWED_TAGS ->
     NodeElement_init (PStr t) a c = inr (Build_NodeElement t a c)).
Proof.
  assert (Hin : forall t, in_allowed_tags t = true <-> In t ALLOWED_TAGS).
  { intros t. unfold in_allowed_tags. rewrite existsb_exists. split.
    - intros [x [Hx E]]. apply String.eqb_eq in E. now subst.
    - intros H. exists t. split; [assumption | apply String.eqb_refl]. }
  split; [apply ALLOWED_TAGS_NoDup |].
  split; [reflexivity | split; [| split; [reflexivity |]]].
  - intros t a c Hnot. exists (ValueError None). split; [| reflexivity].
    unfold NodeElement_init; simpl.
    destruct (in_allowed_tags t) eqn:E; [| reflexivity].
    apply Hin in E. contradiction.
  - intros t a c Hmem. apply Hin in Hmem.
    unfold NodeElement_init; simpl. now rewrite Hmem.
Qed.

Lemma allowed_tags_closed_witness :
  NodeElement_init (PStr "figure") None None
  = inr (Build_NodeElement "figure" None None).
Proof.
  apply (proj2 (proj2 (proj2 (proj2 allowed_tags_closed)))).
  simpl. tauto.
Defined.

(** C2 as stated fails: the set, whose members are pairwise distinct, does
    not have 21 of them. *)
Lemma allowed_tags_not_21 :
  ~ (NoDup ALLOWED_TAGS /\ Datatypes.length ALLOWED_TAGS = 21%nat).
Proof. intros [_ H]. discriminate H. Qed.

(** ** The length validator *)

(** C6: the validator returned by [length] accepts [None] whatever the
    bounds; accepts every string whose length lies in the closed interval;
    rejects every other string with a [ValueError] whose message contains
    the attribute's name; and rejects every value that is neither [None] nor
    a string, with a [TypeError] that names the attribute too. *)
Theorem length_validator (repr : pyval -> string) (min max : option Z)
  (name : string) :
  (min <> None \/ max <> None ->
     length repr min max = inr (validate repr min max)) /\
  validate repr min max name PNone = inr tt /\
  (forall s, within min max (len s) ->
     validate repr min max name (PStr s) = inr tt) /\
  (forall s, ~ within min max (len s) ->
     exists pre post,
       validate repr min max name (PStr s)
       = inl (ValueError (Some (pre ++ name ++ post)))) /\
  (forall v, v <> PNone -> is_str v = false ->
     exists pre post,
       validate repr min max name v
       = inl (TypeError (Some (pre ++ name ++ post)))).
Proof.
  split; [| split; [reflexivity | split; [| split]]].
  - intros [H | H]; destruct min, max; try reflexivity; now elim H.
  - intros s [Hlo Hhi]. unfold validate.
    destruct min as [lo|], max as [hi|]; simpl;
      repeat match goal with
             | |- context [?a <? ?b] => destruct (Z.ltb_spec a b); try lia; simpl
             end; reflexivity.
  - intros s Hout. unfold within in Hout. unfold validate.
    destruct min as [lo|], max as [hi|];
      try destruct (Z.ltb_spec (len s) lo);
      try destruct (Z.ltb_spec hi (len s));
      cbv beta iota delta [rbind];
      try (do 2 eexists; reflexivity);
      exfalso; apply Hout; split; (exact I || lia).
  - intros v Hnone Hstr.
    destruct v; try (now elim Hnone); try discriminate Hstr;
      unfold validate; do 2 eexists; reflexivity.
Qed.

Lemma length_validator_witness :
  validate repr0 (Some 1) (Some 32) "short_name" (PStr "telegra") = inr tt.
Proof.
  apply (proj1 (proj2 (proj2 (length_validator repr0 (Some 1) (Some 32) "short_name")))).
  unfold within, len. simpl. lia.
Defined.

(** ** Running the client *)

(** Unfold an operation down to [_request] and the pure decoding steps. *)
Ltac unfold_op :=
  unfold perform, createAccount, editAccountInfo, getAccountInfo, revokeAccessToken,
    createPage, editPage, getPage, getPageList, getViews,
    bind, lift, ret, raise, get_account, set_account in *.

(** Split on every scrutinee of the hypotheses, and invert the equations
    between outcomes that this leaves. *)
Ltac crunch :=
  repeat (match goal with
          | H : (_, _) = (_, _) |- _ => inversion H; clear H; subst
          | H : inl _ = inl _ |- _ => inversion H; clear H; subst
          | H : inr _ = inr _ |- _ => inversion H; clear H; subst
          | H : context [match ?x with _ => _ end] |- _ => destruct x eqn:?
          end; try discriminate).

(** ** Errors raised on this side of the wire *)













(** ** [Account] and [attrs.evolve] *)

Lemma Account_init_fields repr kw a :
  Account_init repr kw = inr a ->
  a = Account.Build (arg kw "short_name") (arg kw "author_name")
        (arg kw "author_url") (arg kw "access_token") (arg kw "auth_url")
        (arg kw "page_count").
Proof.
  unfold Account_init, rbind. intros H.
  repeat match type of H with
         | match ?x with _ => _ end = _ => destruct x; try discriminate H
         end.
  now inversion H.
Qed.

Lemma fill_get (a : Account.t) (l : list string) :
  forall (ch : dict pyval) (k : string),
    Dict.get
      (fold_left
         (fun ch f =>
            if Dict.mem ch f then ch else Dict.set ch f (Account.getattr a f))
         l ch) k
    = match Dict.get ch k with
      | Some v => Some v
      | None =>
          if existsb (String.eqb k) l then Some (Account.getattr a k) else None
      end.
Proof.
  induction l as [|x l IH]; intros ch k; simpl.
  - now destruct (Dict.get ch k).
  - rewrite IH. unfold Dict.mem.
    destruct (Dict.get ch x) eqn:Hx.
    + destruct (Dict.get ch k) eqn:Hk; [reflexivity |].
      destruct (String.eqb_spec k x) as [->|Hne]; [congruence | reflexivity].
    + destruct (String.eqb_spec k x) as [->|Hne].
      * rewrite get_set_same, Hx. reflexivity.
      * rewrite get_set_other by now apply String.eqb_neq.
        reflexivity.
Qed.

Lemma getattr_of_args (d : dict pyval) f :
  In f Account.params ->
  Account.getattr
    (Account.Build (arg d "short_name") (arg d "author_name")
       (arg d "author_url") (arg d "access_token") (arg d "auth_url")
       (arg d "page_count")) f
  = arg d f.
Proof.
  simpl. intros Hf.
  repeat (destruct Hf as [<- | Hf]; [reflexivity |]). contradiction.
Qed.

Lemma evolve_overlay repr old kw new :
  evolve repr (Some old) kw = inr new ->
  forall f, In f Account.params ->
    Account.getattr new f
    = match Dict.get kw f with
      | Some v => v
      | None => Account.getattr old f
      end.
Proof.
  unfold evolve. intros H f Hf. apply Account_init_fields in H. subst new.
  rewrite getattr_of_args by assumption. unfold arg. rewrite fill_get.
  destruct (Dict.get kw f); [reflexivity |].
  replace (existsb (String.eqb f) Account.params) with true; [reflexivity |].
  symmetry. apply existsb_exists. exists f. split; [assumption |].
  apply String.eqb_refl.
Qed.

Lemma evolve_tokens repr old token auth new :
  evolve repr (Some old) [("access_token", token); ("auth_url", auth)]
  = inr new ->
  new = Account.Build (Account.short_name old) (Account.author_name old)
          (Account.author_url old) token auth (Account.page_count old).
Proof.
  unfold evolve. intros H. apply Account_init_fields in H. exact H.
Qed.

Lemma decode_account repr result a :
  (kw <-? unpack result ;; Account_init repr kw) = inr a ->
  exists kw,
    result = PDict kw /\
    forall f, In f Account.params -> Account.getattr a f = arg kw f.
Proof.
  unfold rbind. destruct result; try discriminate. simpl. intros H.
  exists d. split; [reflexivity |]. intros f Hf.
  apply Account_init_fields in H. subst a. now apply getattr_of_args.
Qed.

Lemma decode_overlay repr before result a :
  (kw <-? unpack result ;; evolve repr before kw) = inr a ->
  exists kw old,
    result = PDict kw /\ before = Some old /\
    forall f, In f Account.params ->
      Account.getattr a f
      = match Dict.get kw f with
        | Some v => v
        | None => Account.getattr old f
        end.
Proof.
  unfold rbind. destruct result; try discriminate. simpl. intros H.
  destruct before as [old|]; [| discriminate H].
  exists d, old. split; [reflexivity |]. split; [reflexivity |].
  eapply evolve_overlay; eassumption.
Qed.

Lemma decode_tokens repr before result a :
  (token <-? method_get result "access_token" ;;
   auth <-? method_get result "auth_url" ;;
   evolve repr before [("access_token", token); ("auth_url", auth)]) = inr a ->
  exists kw old,
    result = PDict kw /\ before = Some old /\
    a = Account.Build (Account.short_name old) (Account.author_name old)
          (Account.author_url old) (arg kw "access_token") (arg kw "auth_url")
          (Account.page_count old).
Proof.
  unfold rbind. destruct result; try discriminate. simpl. intros H.
  destruct before as [old|]; [| discriminate H].
  exists d, old. split; [reflexivity |]. split; [reflexivity |].
  eapply evolve_tokens; eassumption.
Qed.

(** ** Argument checks *)

Lemma put_checked_too_long data k v hi msg :
  too_long v hi -> 0 <= hi ->
  put_checked data k v 0 hi msg = inl (ValueError (Some msg)).
Proof.
  intros (s & -> & Hlen) Hhi. unfold put_checked, truthy_str.
  rewrite len_pos_nonempty by lia. simpl.
  destruct (Z.leb_spec 0 (len s)); destruct (Z.leb_spec (len s) hi);
    try lia; reflexivity.
Qed.

Lemma put_checked_error data k v lo hi msg e :
  put_checked data k v lo hi msg = inl e -> e = ValueError (Some msg).
Proof.
  unfold put_checked. intros H.
  destruct v; [| discriminate H].
  destruct (truthy_str _); [| discriminate H].
  destruct (negb _); now inversion H.
Qed.

Lemma put_int_checked_cases data k v lo hi msg :
  (out_of_range v lo hi /\
   put_int_checked data k v lo hi msg = inl (ValueError (Some msg))) \/
  (~ out_of_range v lo hi /\
   put_int_checked data k v lo hi msg
   = inr match v with
         | Some z => if truthy_int v then Dict.set data k (str_int z) else data
         | None => data
         end).
Proof.
  unfold put_int_checked, out_of_range. destruct v as [z|].
  - simpl. destruct (Z.eqb_spec z 0) as [->|Hz]; simpl.
    + right. split; [| reflexivity]. intros (z' & Hz' & Hne & _).
      inversion Hz'. congruence.
    + destruct (Z.leb_spec lo z); destruct (Z.leb_spec z hi); simpl;
        try (left; split; [exists z; repeat split; auto; lia | reflexivity]).
      right. split; [| reflexivity]. intros (z' & Hz' & _ & Hr).
      inversion Hz'. subst z'. lia.
  - right. split; [| reflexivity]. intros (z & Hz & _). discriminate Hz.
Qed.

(** ** The operations *)

Section ClientFacts.
Variable repr : pyval -> string.
Variable json_dumps : pyval -> string.
Variable url_join : string -> string -> string.
Variable post : string -> dict string -> string + pyval.

Lemma request_world method path data w r w' :
  _request url_join post method path data w = (r, w') ->
  w' = Build_world (account w) (posts w ++ [(url_join API_URL path, data)]).
Proof. unfold _request. destruct (post _ _); intros H; now inversion H. Qed.

Lemma request_account method path data w r w' :
  _request url_join post method path data w = (r, w') -> account w' = account w.
Proof. intros H. apply request_world in H. now subst w'. Qed.

Lemma not_answered_self w body : ~ answered post w w body.
Proof.
  intros (u & d & H & _).
  apply (f_equal (@Datatypes.length _)) in H. rewrite length_app in H.
  simpl in H. lia.
Qed.

Lemma answered_request method path data w r w1 w' body :
  _request url_join post method path data w = (r, w1) ->
  posts w' = posts w1 ->
  answered post w w' body ->
  post (url_join API_URL path) data = inr body.
Proof.
  intros Hreq Hp (u & d & Hlog & Hpost).
  apply request_world in Hreq. subst w1. simpl in Hp. rewrite Hp in Hlog.
  apply app_inv_head in Hlog. now inversion Hlog; subst.
Qed.




(** C9: whenever an operation fails, with whatever error, the client holds
    the same Account as before the call. *)
Theorem failure_keeps_account c w e w' :
  perform repr json_dumps url_join post c w = (inl e, w') ->
  account w' = account w.
Proof.
  destruct c; unfold_op; intros H; crunch; eauto using request_account.
Qed.




Lemma request_success method path data w r w1 :
  _request url_join post method path data w = (inr r, w1) ->
  exists env,
    post (url_join API_URL path) data = inr (PDict env) /\
    r = TelegraphResult.Build (arg env "ok") (arg env "result") (arg env "error").
Proof.
  unfold _request. intros H.
  destruct (post _ _) as [info|body] eqn:Hpost; [now inversion H |].
  inversion H as [[Hr Hw]]. clear H Hw.
  destruct body; try discriminate Hr. exists d. split; [reflexivity |].
  unfold getitem, rbind, unpack, TelegraphResult_init, bind_kwargs in Hr.
  crunch. unfold rbind in Hr. now inversion Hr.
Qed.

Lemma answered_by_request method path data w r w1 w' env :
  _request url_join post method path data w = (r, w1) ->
  posts w' = posts w1 ->
  post (url_join API_URL path) data = inr (PDict env) ->
  answered post w w' (PDict env).
Proof.
  intros Hreq Hp Hpost. apply request_world in Hreq. subst w1.
  exists (url_join API_URL path), data. now split.
Qed.

Lemma request_returns_payload method path data w env :
  post (url_join API_URL path) data = inr (PDict env) ->
  Dict.get env "ok" = Some (PBool true) ->
  (forall k, In k (Dict.keys env) -> In k TelegraphResult.params) ->
  fst (_request url_join post method path data w)
  = inr (TelegraphResult.Build (PBool true) (arg env "result")
           (arg env "error")).
Proof.
  intros Hpost Hok Hkeys. unfold _request. rewrite Hpost. simpl.
  rewrite Hok. simpl. unfold TelegraphResult_init, bind_kwargs.
  replace (forallb _ (Dict.keys env)) with true.
  - unfold Dict.mem. simpl. rewrite Hok. simpl. unfold arg. now rewrite Hok.
  - symmetry. apply forallb_forall. intros k Hk. apply existsb_exists.
    exists k. split; [now apply Hkeys | apply String.eqb_refl].
Qed.

Lemma request_decoded method path data w r w1 env :
  _request url_join post method path data w = (r, w1) ->
  post (url_join API_URL path) data = inr (PDict env) ->
  Dict.get env "ok" = Some (PBool true) ->
  (forall k, In k (Dict.keys env) -> In k TelegraphResult.params) ->
  r = inr (TelegraphResult.Build (PBool true) (arg env "result")
             (arg env "error")).
Proof.
  intros H Hpost Hok Hkeys.
  pose proof (request_returns_payload method path data w env Hpost Hok Hkeys)
    as Hf.
  rewrite H in Hf. exact Hf.
Qed.

Lemma perform_decodes c w r w' env :
  perform repr json_dumps url_join post c w = (r, w') ->
  answered post w w' (PDict env) ->
  Dict.get env "ok" = Some (PBool true) ->
  (forall k, In k (Dict.keys env) -> In k TelegraphResult.params) ->
  r = decode repr c (account w) (arg env "result") /\
  account w' = match r with
               | inr (EAccount a) => a
               | _ => account w
               end.
Proof.
  intros H Hans Hok Hkeys.
  destruct c; unfold_op; crunch;
    try (exfalso; eapply not_answered_self; eassumption);
    match goal with
    | Hreq : _request _ _ _ _ _ _ = (_, _) |- _ =>
        pose proof (answered_request _ _ _ _ _ _ _ _ Hreq eq_refl Hans) as Hpost;
        pose proof (request_decoded _ _ _ _ _ _ _ Hreq Hpost Hok Hkeys) as Hr;
        pose proof (request_account _ _ _ _ _ _ Hreq) as Hacc
    end;
    try discriminate Hr;
    apply inr_inj in Hr; subst;
    cbn [TelegraphResult.result account] in *;
    try rewrite Hacc in *;
    unfold decode;
    repeat match goal with
           | Hd : rbind _ _ = _ |- _ => rewrite Hd
           | Hd : truthy _ = _ |- _ => rewrite Hd
           end;
    split; reflexivity.
Qed.

(** C4: a successful [createAccount] stores and returns the Account built
    from the result alone; a successful [editAccountInfo] or
    [getAccountInfo] stores and returns the held Account with the fields of
    the result laid over it, every other field as it was; a successful
    [revokeAccessToken] replaces [access_token] and [auth_url] only.  And
    they do succeed and store: answered with [ok] true, [createAccount]
    returns and holds the Account that the result builds; the other three
    return and keep the held Account when the result is falsy, and else
    return and hold the Account that [attrs.evolve] makes of the held one
    and the result, for [revokeAccessToken] of the held one and the
    result's [access_token] and [auth_url]. *)
Theorem account_updates :
  (forall sn an au w a w',
      createAccount repr url_join post sn an au w = (inr a, w') ->
      account w' = Some a /\
      exists env kw,
        answered post w w' (PDict env) /\ arg env "result" = PDict kw /\
        forall f, In f Account.params -> Account.getattr a f = arg kw f) /\
  (forall t sn an au w now w',
      editAccountInfo repr url_join post t sn an au w = (inr now, w') ->
      account w' = now /\
      exists env,
        answered post w w' (PDict env) /\
        overlaid (account w) now (arg env "result")) /\
  (forall t fs w now w',
      getAccountInfo repr json_dumps url_join post t fs w = (inr now, w') ->
      account w' = now /\
      exists env,
        answered post w w' (PDict env) /\
        overlaid (account w) now (arg env "result")) /\
  (forall t w now w',
      revokeAccessToken repr url_join post t w = (inr now, w') ->
      account w' = now /\
      exists env,
        answered post w w' (PDict env) /\
        token_overlaid (account w) now (arg env "result")) /\
  (forall sn an au w r w' env kw a,
      createAccount repr url_join post sn an au w = (r, w') ->
      answered post w w' (PDict env) ->
      Dict.get env "ok" = Some (PBool true) ->
      (forall k, In k (Dict.keys env) -> In k TelegraphResult.params) ->
      arg env "result" = PDict kw ->
      Account_init repr kw = inr a ->
      r = inr a /\ account w' = Some a) /\
  (forall t sn an au w r w' env,
      editAccountInfo repr url_join post t sn an au w = (r, w') ->
      answered post w w' (PDict env) ->
      Dict.get env "ok" = Some (PBool true) ->
      (forall k, In k (Dict.keys env) -> In k TelegraphResult.params) ->
      (truthy (arg env "result") = false ->
       r = inr (account w) /\ account w' = account w) /\
      (forall kw a,
          arg env "result" = PDict kw -> kw <> [] ->
          evolve repr (account w) kw = inr a ->
          r = inr (Some a) /\ account w' = Some a)) /\
  (forall t fs w r w' env,
      getAccountInfo repr json_dumps url_join post t fs w = (r, w') ->
      answered post w w' (PDict env) ->
      Dict.get env "ok" = Some (PBool true) ->
      (forall k, In k (Dict.keys env) -> In k TelegraphResult.params) ->
      (truthy (arg env "result") = false ->
       r = inr (account w) /\ account w' = account w) /\
      (forall kw a,
          arg env "result" = PDict kw -> kw <> [] ->
          evolve repr (account w) kw = inr a ->
          r = inr (Some a) /\ account w' = Some a)) /\
  (forall t w r w' env,
      revokeAccessToken repr url_join post t w = (r, w') ->
      answered post w w' (PDict env) ->
      Dict.get env "ok" = Some (PBool true) ->
      (forall k, In k (Dict.keys env) -> In k TelegraphResult.params) ->
      (truthy (arg env "result") = false ->
       r = inr (account w) /\ account w' = account w) /\
      (forall kw a,
          arg env "result" = PDict kw -> kw <> [] ->
          evolve repr (account w)
            [("access_token", arg kw "access_token");
             ("auth_url", arg kw "auth_url")] = inr a ->
          r = inr (Some a) /\ account w' = Some a)).
Proof.
  split; [| split; [| split; [| split; [| split; [| split; [| split]]]]]].
  - intros sn an au w a w' H. unfold_op. crunch. split; [reflexivity |].
    match goal with
    | Hq : _request _ _ _ _ _ _ = (inr _, _) |- _ =>
        destruct (request_success _ _ _ _ _ _ Hq) as (env & Hpost & ->);
        exists env;
        pose proof (fun w' Hw =>
                      answered_by_request _ _ _ _ _ _ w' _ Hq Hw Hpost) as Hans
    end.
    match goal with
    | Hd : rbind _ _ = inr _ |- _ =>
        destruct (decode_account _ _ _ Hd) as (kw & Hres & Hfields)
    end.
    exists kw. split; [now apply Hans |]. now split.
  - intros t sn an au w now w' H. unfold_op. crunch;
      (split; [reflexivity |]);
      match goal with
      | Hq : _request _ _ _ _ _ _ = (inr _, ?w1) |- _ =>
          destruct (request_success _ _ _ _ _ _ Hq) as (env & Hpost & ->);
          pose proof (request_account _ _ _ _ _ _ Hq) as Hacc;
          exists env; split;
            [eapply answered_by_request; [exact Hq | reflexivity | exact Hpost] |]
      end; simpl in *; split; intros Ht; try congruence.
    match goal with
    | Hd : rbind _ _ = inr ?a |- _ =>
        destruct (decode_overlay _ _ _ _ Hd) as (kw & old & Hres & Hold & Hf);
        exists kw, old, a; repeat split; congruence || assumption
    end.
  - intros t fs w now w' H. unfold_op. crunch;
      (split; [reflexivity |]);
      match goal with
      | Hq : _request _ _ _ _ _ _ = (inr _, ?w1) |- _ =>
          destruct (request_success _ _ _ _ _ _ Hq) as (env & Hpost & ->);
          pose proof (request_account _ _ _ _ _ _ Hq) as Hacc;
          exists env; split;
            [eapply answered_by_request; [exact Hq | reflexivity | exact Hpost] |]
      end; simpl in *; split; intros Ht; try congruence;
      match goal with
      | Hd : rbind _ _ = inr ?a |- _ =>
          destruct (decode_overlay _ _ _ _ Hd) as (kw & old & Hres & Hold & Hf);
          exists kw, old, a; repeat split; congruence || assumption
      end.
  - intros t w now w' H. unfold_op. crunch;
      (split; [reflexivity |]);
      match goal with
      | Hq : _request _ _ _ _ _ _ = (inr _, ?w1) |- _ =>
          destruct (request_success _ _ _ _ _ _ Hq) as (env & Hpost & ->);
          pose proof (request_account _ _ _ _ _ _ Hq) as Hacc;
          exists env; split;
            [eapply answered_by_request; [exact Hq | reflexivity | exact Hpost] |]
      end; simpl in *; split; intros Ht; try congruence;
      match goal with
      | Hd : rbind _ _ = inr ?a |- _ =>
          destruct (decode_tokens _ _ _ _ Hd) as (kw & old & Hres & Hold & Hf);
          exists kw, old; repeat split; congruence || assumption
      end.
  - intros sn an au w r w' env kw a H Hans Hok Hkeys Hres Hinit.
    assert (Hp : perform repr json_dumps url_join post (CreateAccount sn an au) w
                 = (match r with
                    | inl e => inl e
                    | inr a => inr (EAccount (Some a))
                    end, w'))
      by (unfold perform, bind, ret; rewrite H; now destruct r).
    destruct (perform_decodes _ _ _ _ _ Hp Hans Hok Hkeys) as [Hr Hacc].
    unfold decode in Hr. rewrite Hres in Hr. cbn [unpack rbind] in Hr.
    rewrite Hinit in Hr. cbn [rbind] in Hr.
    destruct r as [e|a']; [discriminate Hr |].
    apply inr_inj in Hr. inversion Hr. subst a'. now split.
  - intros t sn an au w r w' env H Hans Hok Hkeys.
    assert (Hp : perform repr json_dumps url_join post
                   (EditAccountInfo t sn an au) w
                 = (match r with
                    | inl e => inl e
                    | inr a => inr (EAccount a)
                    end, w'))
      by (unfold perform, bind, ret; rewrite H; now destruct r).
    destruct (perform_decodes _ _ _ _ _ Hp Hans Hok Hkeys) as [Hr Hacc].
    unfold decode in Hr. split.
    + intros Ht. rewrite Ht in Hr.
      destruct r as [e|a']; [discriminate Hr |].
      apply inr_inj in Hr. inversion Hr. subst a'. now split.
    + intros kw a Hres Hne Hev. rewrite Hres in Hr.
      destruct kw as [|x kw]; [now elim Hne |].
      cbn [truthy unpack rbind] in Hr. rewrite Hev in Hr. cbn [rbind] in Hr.
      destruct r as [e|a']; [discriminate Hr |].
      apply inr_inj in Hr. inversion Hr. subst a'. now split.
  - intros t fs w r w' env H Hans Hok Hkeys.
    assert (Hp : perform repr json_dumps url_join post (GetAccountInfo t fs) w
                 = (match r with
                    | inl e => inl e
                    | inr a => inr (EAccount a)
                    end, w'))
      by (unfold perform, bind, ret; rewrite H; now destruct r).
    destruct (perform_decodes _ _ _ _ _ Hp Hans Hok Hkeys) as [Hr Hacc].
    unfold decode in Hr. split.
    + intros Ht. rewrite Ht in Hr.
      destruct r as [e|a']; [discriminate Hr |].
      apply inr_inj in Hr. inversion Hr. subst a'. now split.
    + intros kw a Hres Hne Hev. rewrite Hres in Hr.
      destruct kw as [|x kw]; [now elim Hne |].
      cbn [truthy unpack rbind] in Hr. rewrite Hev in Hr. cbn [rbind] in Hr.
      destruct r as [e|a']; [discriminate Hr |].
      apply inr_inj in Hr. inversion Hr. subst a'. now split.
  - intros t w r w' env H Hans Hok Hkeys.
    assert (Hp : perform repr json_dumps url_join post (RevokeAccessToken t) w
                 = (match r with
                    | inl e => inl e
                    | inr a => inr (EAccount a)
                    end, w'))
      by (unfold perform, bind, ret; rewrite H; now destruct r).
    destruct (perform_decodes _ _ _ _ _ Hp Hans Hok Hkeys) as [Hr Hacc].
    unfold decode in Hr. split.
    + intros Ht. rewrite Ht in Hr.
      destruct r as [e|a']; [discriminate Hr |].
      apply inr_inj in Hr. inversion Hr. subst a'. now split.
    + intros kw a Hres Hne Hev. rewrite Hres in Hr.
      destruct kw as [|x kw]; [now elim Hne |].
      cbn [truthy method_get rbind] in Hr. rewrite Hev in Hr.
      cbn [rbind] in Hr.
      destruct r as [e|a']; [discriminate Hr |].
      apply inr_inj in Hr. inversion Hr. subst a'. now split.
Qed.

(** C5: [createPage] and [editPage] raise [ValueError], and leave the world
    as it was (nothing is posted), when the title's length is outside
    [1, 256], or [author_name] is given and longer than 128, or [author_url]
    is given and longer than 512. *)
Theorem page_arguments_checked t ti c an au rc w :
  len ti < 1 \/ 256 < len ti \/ too_long an 128 \/ too_long au 512 ->
  (exists msg,
      createPage json_dumps url_join post t ti c an au rc w
      = (inl (ValueError (Some msg)), w)) /\
  (forall p, exists msg,
      editPage json_dumps url_join post t p ti c an au rc w
      = (inl (ValueError (Some msg)), w)).
Proof.
  intros H.
  split; [| intros p]; unfold createPage, editPage, bind, lift, raise;
    (destruct (Z.leb_spec 1 (len ti)); destruct (Z.leb_spec (len ti) 256);
     simpl; try (eexists; reflexivity));
    match goal with
    | |- context [put_checked ?d "author_name" an 0 128 ?m] =>
        destruct (put_checked d "author_name" an 0 128 m) as [e|d1] eqn:Han
    end;
    try (apply put_checked_error in Han; subst e; eexists; reflexivity);
    (destruct H as [H | [H | [H | H]]]; try lia;
     [ rewrite put_checked_too_long in Han by (assumption || lia);
       discriminate Han
     | rewrite put_checked_too_long by (assumption || lia);
       eexists; reflexivity ]).
Qed.

(** C7: [getPageList] raises [ValueError] with nothing posted when the
    offset is negative or the limit outside [0, 200]; with offset 0, limit
    200 and the answer [{"ok": true, "result": {"total_count": 0, "pages":
    []}}] it returns the PageList of count 0 with no page. *)
Theorem page_list_checked t w :
  (forall offset limit,
      offset < 0 \/ limit < 0 \/ 200 < limit ->
      exists msg,
        getPageList url_join post t offset limit w
        = (inl (ValueError (Some msg)), w)) /\
  (post (url_join API_URL "getPageList")
     [("access_token", t); ("offset", "0"); ("limit", "200")]
   = inr (PDict [("ok", PBool true);
                 ("result", PDict [("total_count", PInt 0);
                                   ("pages", PList [])])]) ->
   getPageList url_join post t 0 200 w
   = (inr (PageList.Build (PInt 0) []),
      Build_world (account w)
        (posts w ++ [(url_join API_URL "getPageList",
                      [("access_token", t); ("offset", "0"); ("limit", "200")])]))).
Proof.
  split.
  - intros offset limit H. unfold getPageList, raise.
    destruct (Z.leb_spec 0 offset); simpl; [| eexists; reflexivity].
    destruct (Z.leb_spec 0 limit); destruct (Z.leb_spec limit 200); simpl;
      try (eexists; reflexivity). lia.
  - intros Hpost. unfold getPageList, bind, lift, _request. simpl.
    change (str_int 0) with "0". change (str_int 200) with "200".
    rewrite Hpost. reflexivity.
Qed.

(** C8: [getViews] checks year, month, day and hour against [2000, 2100],
    [1, 12], [1, 31] and [0, 24], each only when given and nonzero; a
    violation raises [ValueError] with nothing posted; otherwise the request
    goes out with exactly the given nonzero ones in its payload. *)
Theorem views_arguments_checked path year month day hour w :
  (out_of_range year 2000 2100 \/ out_of_range month 1 12 \/
   out_of_range day 1 31 \/ out_of_range hour 0 24 ->
   exists msg,
     getViews url_join post path year month day hour w
     = (inl (ValueError (Some msg)), w)) /\
  (~ (out_of_range year 2000 2100 \/ out_of_range month 1 12 \/
      out_of_range day 1 31 \/ out_of_range hour 0 24) ->
   exists data,
     snd (getViews url_join post path year month day hour w)
     = Build_world (account w)
         (posts w ++ [(url_join API_URL ("getViews/" ++ path), data)]) /\
     Dict.get data "year"
     = (if truthy_int year then option_map str_int year else None) /\
     Dict.get data "month"
     = (if truthy_int month then option_map str_int month else None) /\
     Dict.get data "day"
     = (if truthy_int day then option_map str_int day else None) /\
     Dict.get data "hour"
     = (if truthy_int hour then option_map str_int hour else None) /\
     forall k, Dict.mem data k = true -> In k ["year"; "month"; "day"; "hour"]).
Proof.
  unfold getViews, bind, lift.
  destruct (put_int_checked_cases [] "year" year 2000 2100
              "Year must be between 2000 and 2100") as [[Hy ->]|[Hy ->]].
  { split; [intros _; eexists; reflexivity | tauto]. }
  match goal with |- context [put_int_checked ?d "month" _ _ _ ?m] =>
    destruct (put_int_checked_cases d "month" month 1 12 m) as [[Hm ->]|[Hm ->]]
  end.
  { split; [intros _; eexists; reflexivity | tauto]. }
  match goal with |- context [put_int_checked ?d "day" _ _ _ ?m] =>
    destruct (put_int_checked_cases d "day" day 1 31 m) as [[Hd ->]|[Hd ->]]
  end.
  { split; [intros _; eexists; reflexivity | tauto]. }
  match goal with |- context [put_int_checked ?d "hour" _ _ _ ?m] =>
    destruct (put_int_checked_cases d "hour" hour 0 24 m) as [[Hh ->]|[Hh ->]]
  end.
  { split; [intros _; eexists; reflexivity | tauto]. }
  split; [tauto |]. intros _.
  match goal with |- context [_request _ _ ?m ?p ?d w] =>
    destruct (_request url_join post m p d w) as [r w1] eqn:Hreq;
    exists d
  end.
  apply request_world in Hreq. subst w1.
  split; [destruct r; reflexivity |].
  destruct year as [y|], month as [m|], day as [d|], hour as [h|]; simpl;
    repeat match goal with
           | |- context [?z =? 0] => destruct (z =? 0); simpl
           end;
    (repeat split;
     try (intros k Hk; apply mem_keys in Hk; simpl in Hk; simpl; tauto)).
Qed.

(** C10: when no Account is held and the answer carries a truthy result,
    [editAccountInfo], [getAccountInfo] and [revokeAccessToken] raise, and
    still no Account is held. *)
Theorem overlay_without_account :
  (forall t sn an au w r w' env,
      editAccountInfo repr url_join post t sn an au w = (r, w') ->
      account w = None ->
      answered post w w' (PDict env) ->
      truthy (arg env "result") = true ->
      (exists e, r = inl e) /\ account w' = None) /\
  (forall t fs w r w' env,
      getAccountInfo repr json_dumps url_join post t fs w = (r, w') ->
      account w = None ->
      answered post w w' (PDict env) ->
      truthy (arg env "result") = true ->
      (exists e, r = inl e) /\ account w' = None) /\
  (forall t w r w' env,
      revokeAccessToken repr url_join post t w = (r, w') ->
      account w = None ->
      answered post w w' (PDict env) ->
      truthy (arg env "result") = true ->
      (exists e, r = inl e) /\ account w' = None).
Proof.
  repeat split; intros; unfold_op; crunch;
    match goal with
    | Hq : _request _ _ _ _ _ _ = (_, _) |- _ =>
        pose proof (request_account _ _ _ _ _ _ Hq) as Hacc;
        pose proof (answered_request _ _ _ _ _ _ _ _ Hq eq_refl
                      ltac:(eassumption)) as Hpost
    end;
    try (eexists; reflexivity); try congruence;
    match goal with
    | Hq : _request _ _ _ _ _ _ = (inr _, _) |- _ =>
        destruct (request_success _ _ _ _ _ _ Hq) as (env' & Hpost' & ->);
        rewrite Hpost in Hpost'; inversion Hpost'; subst env'; simpl in *
    end;
    try congruence;
    match goal with
    | Hd : rbind _ _ = inr _ |- _ =>
        first [ destruct (decode_overlay _ _ _ _ Hd) as (? & ? & _ & Hold & _)
              | destruct (decode_tokens _ _ _ _ Hd) as (? & ? & _ & Hold & _) ];
        congruence
    end.
Qed.
End ClientFacts.

(** ** The theorems at work on the examples of the specification *)

Lemma failure_keeps_account_witness :
  account (snd (perform repr0 dumps0 join0 (refuse "503")
                  (RevokeAccessToken "T1") (held account_T1)))
  = Some account_T1.
Proof.
  apply (failure_keeps_account repr0 dumps0 join0 (refuse "503")
           (RevokeAccessToken "T1") (held account_T1) (TransportError "503")).
  reflexivity.
Defined.


Lemma account_updates_witness :
  (account (snd (editAccountInfo repr0 join0 (answer (PDict renamed)) "T1"
                   None None None (held account_T1)))
   = Some account_new /\
   exists env,
     answered (answer (PDict renamed)) (held account_T1)
       (snd (editAccountInfo repr0 join0 (answer (PDict renamed)) "T1"
               None None None (held account_T1))) (PDict env) /\
     overlaid (account (held account_T1)) (Some account_new)
       (arg env "result")) /\
  (fst (createAccount repr0 join0 (answer (PDict created)) "new" None None
          (held account_T2))
   = inr account_new /\
   account (snd (createAccount repr0 join0 (answer (PDict created)) "new"
                   None None (held account_T2)))
   = Some account_new) /\
  (fst (getAccountInfo repr0 dumps0 join0 (answer (PDict renamed)) "T1" None
          (held account_T1))
   = inr (Some account_new) /\
   account (snd (getAccountInfo repr0 dumps0 join0 (answer (PDict renamed))
                   "T1" None (held account_T1)))
   = Some account_new) /\
  (fst (revokeAccessToken repr0 join0 (answer (PDict revoked)) "T1"
          (held account_T1))
   = inr (Some account_T2) /\
   account (snd (revokeAccessToken repr0 join0 (answer (PDict revoked)) "T1"
                   (held account_T1)))
   = Some account_T2).
Proof.
  split; [| split; [| split]].
  - apply (proj1 (proj2 (account_updates repr0 dumps0 join0
                           (answer (PDict renamed))))
             "T1" None None None (held account_T1) (Some account_new)).
    reflexivity.
  - refine ((proj1 (proj2 (proj2 (proj2 (proj2
              (account_updates repr0 dumps0 join0 (answer (PDict created))))))))
              "new" None None (held account_T2) _ _ created
              [("short_name", PStr "new"); ("access_token", PStr "T1")]
              account_new _ _ _ _ _ _).
    + reflexivity.
    + eexists. eexists. split; reflexivity.
    + reflexivity.
    + simpl. tauto.
    + reflexivity.
    + reflexivity.
  - refine (proj2 ((proj1 (proj2 (proj2 (proj2 (proj2 (proj2 (proj2
              (account_updates repr0 dumps0 join0 (answer (PDict renamed))))))))))
              "T1" None (held account_T1) _ _ renamed _ _ _ _)
              [("short_name", PStr "new")] account_new _ _ _).
    + reflexivity.
    + eexists. eexists. split; reflexivity.
    + reflexivity.
    + simpl. tauto.
    + reflexivity.
    + discriminate.
    + reflexivity.
  - refine (proj2 ((proj2 (proj2 (proj2 (proj2 (proj2 (proj2 (proj2
              (account_updates repr0 dumps0 join0 (answer (PDict revoked))))))))))
              "T1" (held account_T1) _ _ revoked _ _ _ _)
              [("access_token", PStr "T2");
               ("auth_url", PStr "https://edit.telegra.ph/auth/T2")]
              account_T2 _ _ _).
    + reflexivity.
    + eexists. eexists. split; reflexivity.
    + reflexivity.
    + simpl. tauto.
    + reflexivity.
    + discriminate.
    + reflexivity.
Defined.

Lemma page_arguments_checked_witness :
  exists msg,
    createPage dumps0 join0 (answer (PDict not_found)) "T1" "" [] None None
      false Telegraph_init
    = (inl (ValueError (Some msg)), Telegraph_init).
Proof.
  refine (proj1 (page_arguments_checked dumps0 join0
                   (answer (PDict not_found)) "T1" "" [] None None false
                   Telegraph_init _)).
  left. unfold len. simpl. lia.
Defined.

Lemma page_list_checked_witness :
  getPageList join0 (answer (PDict no_pages)) "T1" 0 200 Telegraph_init
  = (inr (PageList.Build (PInt 0) []),
     Build_world None
       [("https://api.telegra.ph/getPageList",
         [("access_token", "T1"); ("offset", "0"); ("limit", "200")])]).
Proof.
  apply (proj2 (page_list_checked join0 (answer (PDict no_pages)) "T1"
                  Telegraph_init)).
  reflexivity.
Defined.

Lemma views_arguments_checked_witness :
  exists msg,
    getViews join0 (answer (PDict no_pages)) "Sample-Page" (Some 1999) None
      None (Some 24) Telegraph_init
    = (inl (ValueError (Some msg)), Telegraph_init).
Proof.
  apply (proj1 (views_arguments_checked join0 (answer (PDict no_pages))
                  "Sample-Page" (Some 1999) None None (Some 24)
                  Telegraph_init)).
  left. exists 1999. repeat split; lia.
Defined.

Lemma overlay_without_account_witness :
  (exists e,
      fst (editAccountInfo repr0 join0 (answer (PDict renamed)) "T1"
             None None None Telegraph_init) = inl e) /\
  account (snd (editAccountInfo repr0 join0 (answer (PDict renamed)) "T1"
                  None None None Telegraph_init)) = None.
Proof.
  apply (proj1 (overlay_without_account repr0 dumps0 join0
                  (answer (PDict renamed)))
           "T1" None None None Telegraph_init _ _ renamed).
  - reflexivity.
  - reflexivity.
  - eexists. eexists. split; reflexivity.
  - reflexivity.
Defined.

(** * Further properties of the client *)

Section ClientMore.
Variable repr : pyval -> string.
Variable json_dumps : pyval -> string.
Variable url_join : string -> string -> string.
Variable post : string -> dict string -> string + pyval.

Lemma request_transport_failure method path data w r w1 info :
  _request url_join post method path data w = (r, w1) ->
  post (url_join API_URL path) data = inl info ->
  r = inl (TransportError info).
Proof.
  unfold _request. intros H Hpost. rewrite Hpost in H. now inversion H.
Qed.

Lemma sent_request method path data w r w1 w' url data' :
  _request url_join post method path data w = (r, w1) ->
  posts w' = posts w1 ->
  posts w' = (posts w ++ [(url, data')])%list ->
  url = url_join API_URL path /\ data' = data.
Proof.
  intros Hreq Hp Hlog.
  apply request_world in Hreq. subst w1. simpl in Hp. rewrite Hp in Hlog.
  apply app_inv_head in Hlog. now inversion Hlog.
Qed.

Lemma not_sent_self (w : world) url data :
  posts w <> (posts w ++ [(url, data)])%list.
Proof.
  intros H. apply (f_equal (@Datatypes.length _)) in H.
  rewrite length_app in H. simpl in H. lia.
Qed.

(** X1: when the transport fails on the POST of an operation (the session
    raises, the status is an error, the body is no JSON), the operation
    raises that very failure and the held Account is as it was. *)
Theorem transport_failure_raised c w r w' url data info :
  perform repr json_dumps url_join post c w = (r, w') ->
  posts w' = (posts w ++ [(url, data)])%list ->
  post url data = inl info ->
  r = inl (TransportError info) /\ account w' = account w.
Proof.
  intros H Hlog Hpost.
  destruct c; unfold_op; crunch;
    try (exfalso; eapply not_sent_self; eassumption);
    match goal with
    | Hreq : _request _ _ _ _ _ _ = (_, _) |- _ =>
        destruct (sent_request _ _ _ _ _ _ _ _ _ Hreq eq_refl Hlog) as [-> ->];
        pose proof (request_transport_failure _ _ _ _ _ _ _ Hreq Hpost) as Hr;
        pose proof (request_account _ _ _ _ _ _ _ _ Hreq) as Hacc
    end; try discriminate Hr; split; congruence.
Qed.

Lemma request_answer method path data w r w1 body :
  _request url_join post method path data w = (r, w1) ->
  post (url_join API_URL path) data = inr body ->
  r = (ok <-? getitem body "ok" ;;
       if negb (truthy ok) then
         error <-? getitem body "error" ;; inl (TelegraphError error)
       else kw <-? unpack body ;; TelegraphResult_init kw).
Proof.
  unfold _request. intros H Hpost. rewrite Hpost in H. now inversion H.
Qed.

Lemma bind_kwargs_unexpected params required kw k :
  In k (Dict.keys kw) -> ~ In k params ->
  bind_kwargs params required kw = inl (TypeError None).
Proof.
  intros Hk Hnot. unfold bind_kwargs.
  destruct (forallb _ (Dict.keys kw)) eqn:E; [| reflexivity].
  rewrite forallb_forall in E. specialize (E k Hk).
  apply existsb_exists in E. destruct E as (x & Hx & Ex).
  apply String.eqb_eq in Ex. subst x. contradiction.
Qed.

(** X2: how every operation fails on a malformed answer.  A body that is no
    dict raises [TypeError]; a dict without "ok" raises [KeyError("ok")]; a
    falsy "ok" of any type raises [TelegraphError] with the value under
    "error", whatever its type, and [KeyError("error")] when there is none;
    a truthy "ok" beside a key that [TelegraphResult] does not declare
    raises [TypeError]. *)
Theorem malformed_envelope c w r w' body :
  perform repr json_dumps url_join post c w = (r, w') ->
  answered post w w' body ->
  (unpack body = inl (TypeError None) -> r = inl (TypeError None)) /\
  (forall env, body = PDict env -> Dict.get env "ok" = None ->
     r = inl (KeyError "ok")) /\
  (forall env ok, body = PDict env ->
     Dict.get env "ok" = Some ok -> truthy ok = false ->
     r = inl match Dict.get env "error" with
             | Some error => TelegraphError error
             | None => KeyError "error"
             end) /\
  (forall env ok k, body = PDict env ->
     Dict.get env "ok" = Some ok -> truthy ok = true ->
     In k (Dict.keys env) -> ~ In k TelegraphResult.params ->
     r = inl (TypeError None)).
Proof.
  intros H Hans.
  assert (Hr : forall x : res TelegraphResult.t,
             x = (ok <-? getitem body "ok" ;;
                  if negb (truthy ok) then
                    error <-? getitem body "error" ;; inl (TelegraphError error)
                  else kw <-? unpack body ;; TelegraphResult_init kw) ->
             (unpack body = inl (TypeError None) -> x = inl (TypeError None)) /\
             (forall env, body = PDict env -> Dict.get env "ok" = None ->
                x = inl (KeyError "ok")) /\
             (forall env ok, body = PDict env ->
                Dict.get env "ok" = Some ok -> truthy ok = false ->
                x = inl match Dict.get env "error" with
                        | Some error => TelegraphError error
                        | None => KeyError "error"
                        end) /\
             (forall env ok k, body = PDict env ->
                Dict.get env "ok" = Some ok -> truthy ok = true ->
                In k (Dict.keys env) -> ~ In k TelegraphResult.params ->
                x = inl (TypeError None))).
  { intros x ->. repeat split.
    - destruct body; try reflexivity. discriminate.
    - intros env ->. simpl. now intros ->.
    - intros env ok -> Hok Ht. simpl. rewrite Hok. simpl. rewrite Ht. simpl.
      now destruct (Dict.get env "error").
    - intros env ok k -> Hok Ht Hk Hnot. simpl. rewrite Hok. simpl.
      rewrite Ht. simpl. unfold TelegraphResult_init.
      now rewrite (bind_kwargs_unexpected _ _ _ k Hk Hnot). }
  destruct c; unfold_op; crunch;
    try (exfalso; eapply not_answered_self; eassumption);
    match goal with
    | Hreq : _request _ _ _ _ _ _ = (_, _) |- _ =>
        pose proof (answered_request _ _ _ _ _ _ _ _ _ _ Hreq eq_refl Hans) as Hpost;
        pose proof (request_answer _ _ _ _ _ _ _ Hreq Hpost) as Hx
    end;
    destruct (Hr _ Hx) as (H1 & H2 & H3 & H4);
    repeat split; intros;
    (let X := fresh in
     first
       [ pose proof (H1 ltac:(assumption)) as X
       | pose proof (H2 _ ltac:(eassumption) ltac:(eassumption)) as X
       | pose proof (H3 _ _ ltac:(eassumption) ltac:(eassumption)
                       ltac:(eassumption)) as X
       | pose proof (H4 _ _ _ ltac:(eassumption) ltac:(eassumption)
                       ltac:(eassumption) ltac:(eassumption)
                       ltac:(eassumption)) as X ];
     now inversion X).
Qed.

Lemma perform_posts c w r w' :
  perform repr json_dumps url_join post c w = (r, w') ->
  exists sent,
    posts w' = (posts w ++ sent)%list /\ (Datatypes.length sent <= 1)%nat.
Proof.
  intros H.
  destruct c; unfold_op; crunch;
    try (match goal with
         | Hreq : _request _ _ _ _ _ _ = (_, _) |- _ =>
             apply request_world in Hreq; subst
         end; eexists; split; [reflexivity | apply le_n]);
    exists []; (split; [now rewrite app_nil_r | apply le_0_n]).
Qed.

(** X3: an operation hands at most one POST to the transport, to its own
    endpoint below [API_URL]; it hands none only when it checks its
    arguments first and rejects them, and then it raises [ValueError] and
    the client is exactly as before. *)
Theorem one_post_per_call c w r w' :
  perform repr json_dumps url_join post c w = (r, w') ->
  (w' = w /\ checks_arguments c = true /\
   exists msg, r = inl (ValueError (Some msg))) \/
  (exists data,
      posts w' = (posts w ++ [(url_join API_URL (endpoint c), data)])%list).
Proof.
  intros H.
  destruct c; unfold_op; crunch;
    try (match goal with
         | Hreq : _request _ _ _ _ _ _ = (_, _) |- _ =>
             apply request_world in Hreq; subst
         end; right; eexists; reflexivity);
    left; (split; [reflexivity | split; [reflexivity |]]);
    repeat match goal with
           | Hc : put_checked _ _ _ _ _ _ = inl _ |- _ =>
               apply put_checked_error in Hc; subst
           | Hc : put_int_checked ?d ?k ?v ?lo ?hi ?m = inl _ |- _ =>
               destruct (put_int_checked_cases d k v lo hi m) as [[_ Hx]|[_ Hx]];
               rewrite Hx in Hc; inversion Hc; clear Hc; subst
           end;
    eexists; reflexivity.
Qed.

(** X4: [createPage], [editPage], [getPage], [getPageList] and [getViews]
    never assign [self.account], whether they succeed or fail. *)
Theorem page_calls_keep_account c w r w' :
  is_account_call c = false ->
  perform repr json_dumps url_join post c w = (r, w') ->
  account w' = account w.
Proof.
  intros Hc H.
  destruct c; try discriminate Hc; unfold_op; crunch;
    eauto using request_account.
Qed.

Lemma bind_kwargs_fit params required kw :
  bind_kwargs params required kw = inr tt <-> kwargs_fit params required kw.
Proof.
  unfold bind_kwargs, kwargs_fit. split.
  - intros H.
    destruct (forallb _ (Dict.keys kw)) eqn:E1; [| discriminate H].
    destruct (forallb _ required) eqn:E2; [| discriminate H].
    rewrite forallb_forall in E1, E2. split; [| assumption].
    intros k Hk. specialize (E1 k Hk). apply existsb_exists in E1.
    destruct E1 as (x & Hx & Ex). apply String.eqb_eq in Ex. now subst x.
  - intros [H1 H2].
    replace (forallb _ (Dict.keys kw)) with true.
    + replace (forallb _ required) with true; [reflexivity |].
      symmetry. now apply forallb_forall.
    + symmetry. apply forallb_forall. intros k Hk. apply existsb_exists.
      exists k. split; [now apply H1 | apply String.eqb_refl].
Qed.

Lemma Account_init_valid kw a :
  Account_init repr kw = inr a -> valid_account a.
Proof.
  intros H. pose proof (Account_init_fields _ _ _ H) as Ha.
  unfold Account_init, rbind in H.
  destruct (bind_kwargs _ _ kw); [discriminate H |].
  cbn [Account.short_name Account.author_name Account.author_url] in H.
  unfold valid_account. subst a.
  cbn [Account.short_name Account.author_name Account.author_url].
  destruct (arg kw "short_name"); try discriminate H.
  unfold instance_of_str, is_str, validate, rbind in H.
  destruct (Z.ltb_spec (len s) 1); [discriminate H |].
  destruct (Z.ltb_spec 32 (len s)); [discriminate H |].
  split; [exists s; split; [reflexivity | lia] |].
  unfold optional in H.
  split.
  - destruct (arg kw "author_name"); try discriminate H; [now left |].
    right. destruct (Z.ltb_spec 128 (len s0)); [discriminate H |].
    exists s0. split; [reflexivity | lia].
  - destruct (arg kw "author_name"); try discriminate H;
      try (destruct (Z.ltb_spec 128 (len s0)); [discriminate H |]);
      (destruct (arg kw "author_url"); try discriminate H; [now left |];
       right;
       match goal with
       | |- exists s, PStr ?x = _ /\ _ =>
           destruct (Z.ltb_spec 512 (len x)); [discriminate H |];
           exists x; split; [reflexivity | lia]
       end).
Qed.

Lemma Account_init_of_valid kw :
  kwargs_fit Account.params ["short_name"] kw ->
  valid_account
    (Account.Build (arg kw "short_name") (arg kw "author_name")
       (arg kw "author_url") (arg kw "access_token") (arg kw "auth_url")
       (arg kw "page_count")) ->
  Account_init repr kw
  = inr (Account.Build (arg kw "short_name") (arg kw "author_name")
           (arg kw "author_url") (arg kw "access_token") (arg kw "auth_url")
           (arg kw "page_count")).
Proof.
  intros Hfit ((sn & Hsn & Hlen) & Han & Hau).
  cbn [Account.short_name Account.author_name Account.author_url] in *.
  unfold Account_init. apply bind_kwargs_fit in Hfit. rewrite Hfit.
  cbn [rbind Account.short_name Account.author_name Account.author_url].
  rewrite Hsn. unfold instance_of_str, is_str, validate, rbind.
  destruct (Z.ltb_spec (len sn) 1); [lia |].
  destruct (Z.ltb_spec 32 (len sn)); [lia |].
  destruct Han as [-> | (an & -> & Han)];
    destruct Hau as [-> | (au & -> & Hau)]; unfold optional;
    try (destruct (Z.ltb_spec 128 (len an)); [lia |]);
    try (destruct (Z.ltb_spec 512 (len au)); [lia |]);
    reflexivity.
Qed.

(** X5: calling [Account] with the keywords [kw] succeeds exactly when
    every keyword is a field, [short_name] is given and is a string of 1 to
    32 characters, and [author_name] and [author_url] are [None] or strings
    of at most 128 and 512 characters; the Account then holds the keywords,
    [None] elsewhere. *)
Theorem Account_init_accepts kw a :
  Account_init repr kw = inr a <->
  kwargs_fit Account.params ["short_name"] kw /\
  valid_account a /\
  a = Account.Build (arg kw "short_name") (arg kw "author_name")
        (arg kw "author_url") (arg kw "access_token") (arg kw "auth_url")
        (arg kw "page_count").
Proof.
  split.
  - intros H. split; [| split].
    + apply bind_kwargs_fit. unfold Account_init, rbind in H.
      destruct (bind_kwargs _ _ kw) as [e|[]]; [discriminate H | reflexivity].
    + eapply Account_init_valid; eassumption.
    + eapply Account_init_fields; eassumption.
  - intros (Hfit & Hvalid & ->). now apply Account_init_of_valid.
Qed.

Lemma evolve_valid inst kw a : evolve repr inst kw = inr a -> valid_account a.
Proof.
  unfold evolve. destruct inst; [apply Account_init_valid | discriminate].
Qed.

Lemma perform_account c w r w' :
  perform repr json_dumps url_join post c w = (r, w') ->
  account w' = account w \/
  exists a, account w' = Some a /\ valid_account a.
Proof.
  intros H.
  destruct c; unfold_op; crunch; cbn [account];
    try (left; reflexivity);
    try (left; eapply request_account; eassumption);
    right; eexists; (split; [reflexivity |]);
    unfold rbind in *; crunch;
    eauto using Account_init_valid, evolve_valid.
Qed.

Lemma perform_keeps_valid c w r w' :
  valid_world w ->
  perform repr json_dumps url_join post c w = (r, w') ->
  valid_world w'.
Proof.
  unfold valid_world. intros Hw H.
  destruct (perform_account _ _ _ _ H) as [-> | (a & -> & Ha)]; assumption.
Qed.

Lemma fill_same (a b : Account.t) (l : list string) :
  forall ch : dict pyval,
    (forall f, In f l -> Dict.mem ch f = false ->
               Account.getattr a f = Account.getattr b f) ->
    fold_left
      (fun ch f =>
         if Dict.mem ch f then ch else Dict.set ch f (Account.getattr a f))
      l ch
    = fold_left
        (fun ch f =>
           if Dict.mem ch f then ch else Dict.set ch f (Account.getattr b f))
        l ch.
Proof.
  induction l as [|x l IH]; intros ch Hsame; simpl; [reflexivity |].
  destruct (Dict.mem ch x) eqn:Hx.
  - apply IH. intros f Hf. apply Hsame. now right.
  - rewrite (Hsame x (or_introl eq_refl) Hx). apply IH.
    intros f Hf Hmem. apply Hsame; [now right |].
    unfold Dict.mem in *.
    destruct (String.eqb_spec f x) as [->|Hne].
    + now rewrite get_set_same in Hmem.
    + rewrite get_set_other in Hmem by now apply String.eqb_neq.
      exact Hmem.
Qed.

Lemma evolve_again old kw new :
  evolve repr (Some old) kw = inr new -> evolve repr (Some new) kw = inr new.
Proof.
  intros H. pose proof (evolve_overlay _ _ _ _ H) as Hf.
  unfold evolve in *. rewrite <- H. f_equal. apply fill_same.
  intros f Hin Hmem. rewrite (Hf f Hin). unfold Dict.mem in Hmem.
  now destruct (Dict.get kw f).
Qed.

Lemma decode_overlay_again before result a :
  (kw <-? unpack result ;; evolve repr before kw) = inr a ->
  (kw <-? unpack result ;; evolve repr (Some a) kw) = inr a.
Proof.
  unfold rbind. destruct (unpack result); [discriminate |].
  destruct before; [apply evolve_again | discriminate].
Qed.

Lemma decode_tokens_again before result a :
  (token <-? method_get result "access_token" ;;
   auth <-? method_get result "auth_url" ;;
   evolve repr before [("access_token", token); ("auth_url", auth)]) = inr a ->
  (token <-? method_get result "access_token" ;;
   auth <-? method_get result "auth_url" ;;
   evolve repr (Some a) [("access_token", token); ("auth_url", auth)]) = inr a.
Proof.
  unfold rbind. destruct (method_get result "access_token"); [discriminate |].
  destruct (method_get result "auth_url"); [discriminate |].
  destruct before; [apply evolve_again | discriminate].
Qed.

Lemma request_again method path data w r w1 :
  _request url_join post method path data w = (r, w1) ->
  forall w0,
    _request url_join post method path data w0
    = (r, Build_world (account w0)
            (posts w0 ++ [(url_join API_URL path, data)])).
Proof.
  unfold _request. intros H w0.
  destruct (post _ _); inversion H; reflexivity.
Qed.

(** X6: repeating a call that succeeded, against a transport that answers
    as before, succeeds with the same value and leaves the held Account as
    the first call left it: laying the same result over the Account twice is
    laying it once. *)
Theorem repeated_call_same_result c w ent w1 :
  perform repr json_dumps url_join post c w = (inr ent, w1) ->
  exists w2,
    perform repr json_dumps url_join post c w1 = (inr ent, w2) /\
    account w2 = account w1.
Proof.
  intros H.
  destruct c; unfold_op; crunch;
    match goal with
    | Hreq : _request _ _ _ _ _ _ = (_, _) |- _ =>
        pose proof (request_account _ _ _ _ _ _ _ _ Hreq) as Hacc;
        pose proof (request_again _ _ _ _ _ _ Hreq) as Hag
    end;
    try match goal with
        | Hd : rbind (unpack _) _ = inr _ |- _ =>
            pose proof (decode_overlay_again _ _ _ Hd)
        | Hd : rbind (method_get _ _) _ = inr _ |- _ =>
            pose proof (decode_tokens_again _ _ _ Hd)
        end;
    rewrite Hag;
    repeat first
      [ progress cbn [account posts]
      | match goal with
        | Hd : ?x = inr _ |- context [?x] => rewrite Hd
        | Ht : truthy ?x = _ |- context [truthy ?x] => rewrite Ht
        end ];
    eexists; split; reflexivity.
Qed.

Lemma comprehension_Forall2 {A B} (f : A -> res B) l ys :
  comprehension f l = inr ys <-> Forall2 (fun x y => f x = inr y) l ys.
Proof.
  revert ys. induction l as [|x l IH]; intros ys; simpl.
  - split.
    + intros H. inversion H. constructor.
    + intros H. inversion H. reflexivity.
  - unfold rbind. split.
    + intros H. destruct (f x) eqn:Hx; [discriminate H |].
      destruct (comprehension f l) eqn:Hl; [discriminate H |].
      inversion H. subst ys. constructor; [assumption |]. now apply IH.
    + intros H. inversion H as [|? y ? ys' Hx Hl]; subst.
      rewrite Hx. apply IH in Hl. now rewrite Hl.
Qed.

Lemma Page_init_fields kw p :
  Page_init kw = inr p ->
  p = Page.Build (arg kw "path") (arg kw "url") (arg kw "title")
        (arg kw "description") (arg kw "author_name") (arg kw "author_url")
        (arg kw "image_url") (arg kw "content") (arg kw "views")
        (arg kw "can_edit").
Proof.
  unfold Page_init, rbind. intros H.
  repeat match type of H with
         | match ?x with _ => _ end = _ => destruct x; try discriminate H
         end.
  now inversion H.
Qed.

Lemma Page_init_typed kw p : Page_init kw = inr p -> page_typed p.
Proof.
  intros H. pose proof (Page_init_fields _ _ H) as Hp.
  unfold Page_init, rbind, instance_of_str in H.
  cbn [Page.path Page.url Page.title Page.description] in H.
  subst p. unfold page_typed.
  cbn [Page.path Page.url Page.title Page.description].
  destruct (bind_kwargs _ _ kw); [discriminate H |].
  destruct (is_str (arg kw "path")); [| discriminate H].
  destruct (is_str (arg kw "url")); [| discriminate H].
  destruct (is_str (arg kw "title")); [| discriminate H].
  destruct (is_str (arg kw "description")); [| discriminate H].
  repeat split.
Qed.

(** X7: calling [Page] with the keywords [kw] succeeds exactly when
    every keyword is a field and [path], [url], [title] and [description]
    are given and are strings; the Page then holds the keywords, [None]
    elsewhere. *)
Theorem Page_init_accepts kw p :
  Page_init kw = inr p <->
  kwargs_fit Page.params ["path"; "url"; "title"; "description"] kw /\
  page_typed p /\
  p = Page.Build (arg kw "path") (arg kw "url") (arg kw "title")
        (arg kw "description") (arg kw "author_name") (arg kw "author_url")
        (arg kw "image_url") (arg kw "content") (arg kw "views")
        (arg kw "can_edit").
Proof.
  split.
  - intros H. split; [| split].
    + apply bind_kwargs_fit. unfold Page_init, rbind in H.
      destruct (bind_kwargs _ _ kw) as [e|[]]; [discriminate H | reflexivity].
    + eapply Page_init_typed; eassumption.
    + eapply Page_init_fields; eassumption.
  - intros (Hfit & (H1 & H2 & H3 & H4) & ->).
    cbn [Page.path Page.url Page.title Page.description] in *.
    unfold Page_init. apply bind_kwargs_fit in Hfit. rewrite Hfit.
    unfold instance_of_str.
    cbn [rbind Page.path Page.url Page.title Page.description].
    now rewrite H1, H2, H3, H4.
Qed.

Lemma decode_page result p :
  (kw <-? unpack result ;; Page_init kw) = inr p ->
  exists kw, result = PDict kw /\ Page_init kw = inr p.
Proof.
  unfold rbind. destruct result; try discriminate. simpl. intros H.
  now exists d.
Qed.

Lemma decode_pages items pages0 :
  comprehension (fun page => kw <-? unpack page ;; Page_init kw) items
  = inr pages0 ->
  Forall2 (fun item page => exists kw, item = PDict kw /\ Page_init kw = inr page)
    items pages0.
Proof.
  intros H. apply comprehension_Forall2 in H.
  induction H; constructor; [now apply decode_page | assumption].
Qed.

Lemma decode_page_list result l :
  (raw <-? getitem result "pages" ;;
   items <-? iter raw ;;
   pages0 <-? comprehension
                (fun page => kw <-? unpack page ;; Page_init kw) items ;;
   kw <-? unpack result ;;
   PageList_init kw pages0) = inr l ->
  exists kw raw items,
    result = PDict kw /\
    Dict.get kw "pages" = Some raw /\
    iter raw = inr items /\
    Forall2 (fun item page =>
               exists d, item = PDict d /\ Page_init d = inr page)
      items (PageList.pages l) /\
    PageList.total_count l = arg kw "total_count" /\
    is_int (arg kw "total_count") = true.
Proof.
  destruct result as [| | | | | |kw]; try discriminate. cbn [getitem].
  destruct (Dict.get kw "pages") as [raw|] eqn:Hraw; [| discriminate].
  cbn [rbind]. destruct (iter raw) as [|items] eqn:Hitems; [discriminate |].
  cbn [rbind].
  destruct (comprehension _ items) as [|pages0] eqn:Hpages; [discriminate |].
  cbn [rbind unpack]. unfold PageList_init, instance_of_int.
  destruct (bind_kwargs _ _ kw); [discriminate |]. cbn [rbind].
  destruct (is_int (arg kw "total_count")) eqn:Hint; [| discriminate].
  cbn [rbind]. intros H. inversion H. subst l. cbn.
  exists kw, raw, items. repeat split; try assumption.
  now apply decode_pages.
Qed.


Lemma decode_pages_typed items pages0 :
  Forall2 (fun item page =>
             exists d, item = PDict d /\ Page_init d = inr page)
    items pages0 ->
  Forall page_typed pages0.
Proof.
  induction 1 as [|item page items pages0 (d & _ & Hd) _ IH]; constructor.
  - eapply Page_init_typed; eassumption.
  - assumption.
Qed.

Lemma decode_views result v :
  (kw <-? unpack result ;; PageViews_init kw) = inr v ->
  exists kw,
    result = PDict kw /\ PageViews.views v = arg kw "views" /\
    is_int (arg kw "views") = true.
Proof.
  unfold rbind. destruct result; try discriminate. simpl.
  unfold PageViews_init, instance_of_int, rbind.
  destruct (bind_kwargs _ _ d); [discriminate |].
  destruct (is_int (arg d "views")) eqn:Hint; [| discriminate].
  intros H. inversion H. exists d. now repeat split.
Qed.

(** X9: what a successful operation returns.  A Page has strings in its
    four required attributes, a PageList an int count and such Pages, a
    PageViews an int; an account operation returns what the client now
    holds, which passes the validators of [Account] whenever the Account
    held before the call did. *)
Theorem returned_entity_typed c w ent w' :
  valid_world w ->
  perform repr json_dumps url_join post c w = (inr ent, w') ->
  entity_typed ent /\
  (is_account_call c = true -> ent = EAccount (account w')).
Proof.
  intros Hw H.
  destruct c; unfold_op; crunch; cbn [account is_account_call entity_typed];
    (split; [| first [reflexivity | discriminate]]);
    try (match goal with
         | Hreq : _request _ _ _ _ _ _ = (_, _) |- _ =>
             rewrite (request_account _ _ _ _ _ _ _ _ Hreq)
         end; exact Hw);
    try (match goal with
         | Hd : rbind _ _ = inr _ |- _ =>
             first
               [ destruct (decode_page _ _ Hd) as (kw & _ & Hp);
                 eapply Page_init_typed; exact Hp
               | destruct (decode_page_list _ _ Hd)
                   as (kw & raw & items & _ & _ & _ & Hall & -> & Hint);
                 split; [exact Hint | eapply decode_pages_typed; exact Hall]
               | destruct (decode_views _ _ Hd) as (kw & _ & -> & Hint);
                 exact Hint ]
         end);
    unfold rbind in *; crunch;
    eauto using Account_init_valid, evolve_valid.
Qed.

Lemma put_checked_fits data k v hi msg :
  ~ too_long v hi ->
  put_checked data k v 0 hi msg = inr (put_if data k v).
Proof.
  intros Hfit. unfold put_checked, put_if. destruct v as [s|]; [| reflexivity].
  destruct (truthy_str (Some s)); [| reflexivity].
  destruct (Z.leb_spec 0 (len s)); [| unfold len in *; lia].
  destruct (Z.leb_spec (len s) hi); [reflexivity |].
  elim Hfit. now exists s.
Qed.

Lemma request_posts method path data w :
  posts (snd (_request url_join post method path data w))
  = (posts w ++ [(url_join API_URL path, data)])%list.
Proof. unfold _request. now destruct (post _ _). Qed.

Lemma bind_posts {A B} (m : M A) (k : A -> M B) w :
  (forall a w1, posts (snd (k a w1)) = posts w1) ->
  posts (snd (bind m k w)) = posts (snd (m w)).
Proof.
  intros Hk. unfold bind. destruct (m w) as [[e|a] w1]; [reflexivity |].
  apply Hk.
Qed.

(** X10: the form fields of the account operations.  [createAccount] sends
    [short_name] unchecked and no token, [editAccountInfo] the token; an
    optional argument is sent exactly when it is given and not empty;
    [getAccountInfo] sends "fields" as JSON only for a non-empty list;
    [revokeAccessToken] sends the token alone.  Each posts whatever its
    arguments are. *)
Theorem account_payloads w :
  (forall sn an au, exists data,
      posts (snd (createAccount repr url_join post sn an au w))
      = (posts w ++ [(url_join API_URL "createAccount", data)])%list /\
      Dict.get data "short_name" = Some sn /\
      Dict.get data "author_name" = sent_if an /\
      Dict.get data "author_url" = sent_if au /\
      Dict.get data "access_token" = None) /\
  (forall t sn an au, exists data,
      posts (snd (editAccountInfo repr url_join post t sn an au w))
      = (posts w ++ [(url_join API_URL "editAccountInfo", data)])%list /\
      Dict.get data "access_token" = Some t /\
      Dict.get data "short_name" = sent_if sn /\
      Dict.get data "author_name" = sent_if an /\
      Dict.get data "author_url" = sent_if au) /\
  (forall t fs,
      posts (snd (getAccountInfo repr json_dumps url_join post t fs w))
      = (posts w
         ++ [(url_join API_URL "getAccountInfo",
              match fs with
              | Some (f :: fl) =>
                  [("access_token", t);
                   ("fields", json_dumps (PList (map PStr (f :: fl))))]
              | _ => [("access_token", t)]
              end)])%list) /\
  (forall t,
      posts (snd (revokeAccessToken repr url_join post t w))
      = (posts w
         ++ [(url_join API_URL "revokeAccessToken", [("access_token", t)])])%list).
Proof.
  assert (Hset : forall a w1, posts (snd (set_account a w1)) = posts w1)
    by reflexivity.
  split; [| split; [| split]].
  - intros sn an au. eexists. split.
    + unfold createAccount. rewrite bind_posts; [apply request_posts |].
      intros r w1. rewrite bind_posts.
      * unfold lift. reflexivity.
      * intros a w2. reflexivity.
    + destruct an as [[|? ?]|], au as [[|? ?]|]; repeat split.
  - intros t sn an au. eexists. split.
    + unfold editAccountInfo. rewrite bind_posts; [apply request_posts |].
      intros r w1. unfold bind, get_account, ret, lift, set_account.
      destruct (truthy _); [| reflexivity].
      now destruct (rbind _ _).
    + destruct sn as [[|? ?]|], an as [[|? ?]|], au as [[|? ?]|];
        repeat split.
  - intros t fs.
    unfold getAccountInfo. rewrite bind_posts.
    + rewrite request_posts. now destruct fs as [[|f fl]|].
    + intros r w1. unfold bind, get_account, ret, lift, set_account.
      destruct (truthy _); [| reflexivity].
      now destruct (rbind _ _).
  - intros t.
    unfold revokeAccessToken. rewrite bind_posts; [apply request_posts |].
    intros r w1. unfold bind, get_account, ret, lift, set_account.
    destruct (truthy _); [| reflexivity].
    now destruct (rbind _ _).
Qed.

(** X11: with a title of 1 to 256 characters and authors within 128 and
    512, [createPage] and [editPage] do post: the token, the title, the
    content as the JSON of the nodes' wire forms, [return_content] as "true"
    or "false", an author field exactly when given and not empty, and the
    path for [editPage] alone.  The URL is what yarl's join makes of
    [API_URL] and "createPage", respectively "editPage/" followed by the
    path as given; what the join does with that path is yarl's. *)
Theorem page_request_sent t ti c an au rc w :
  1 <= len ti <= 256 -> ~ too_long an 128 -> ~ too_long au 512 ->
  (exists data,
      posts (snd (createPage json_dumps url_join post t ti c an au rc w))
      = (posts w ++ [(url_join API_URL "createPage", data)])%list /\
      Dict.get data "access_token" = Some t /\
      Dict.get data "path" = None /\
      Dict.get data "title" = Some ti /\
      Dict.get data "content" = Some (json_dumps (PList (map wire c))) /\
      Dict.get data "return_content" = Some (str_bool_lower rc) /\
      Dict.get data "author_name" = sent_if an /\
      Dict.get data "author_url" = sent_if au) /\
  (forall p, exists data,
      posts (snd (editPage json_dumps url_join post t p ti c an au rc w))
      = (posts w ++ [(url_join API_URL ("editPage/" ++ p), data)])%list /\
      Dict.get data "access_token" = Some t /\
      Dict.get data "path" = Some p /\
      Dict.get data "title" = Some ti /\
      Dict.get data "content" = Some (json_dumps (PList (map wire c))) /\
      Dict.get data "return_content" = Some (str_bool_lower rc) /\
      Dict.get data "author_name" = sent_if an /\
      Dict.get data "author_url" = sent_if au).
Proof.
  intros Hti Han Hau.
  split; [| intros p]; unfold createPage, editPage;
    (destruct (Z.leb_spec 1 (len ti)); [| lia]);
    (destruct (Z.leb_spec (len ti) 256); [| lia]);
    cbn [andb negb]; unfold bind at 1, lift at 1;
    rewrite put_checked_fits by assumption;
    unfold bind at 1, lift at 1;
    rewrite put_checked_fits by assumption;
    eexists;
    (split;
     [ rewrite bind_posts; [apply request_posts | reflexivity]
     | destruct an as [[|? ?]|], au as [[|? ?]|]; repeat split ]).
Qed.

(** X12: the checks of [createPage] and [editPage] run in the order title,
    author name, author URL, and the first that fails decides the message
    of the [ValueError]; nothing is posted. *)
Theorem page_argument_messages t ti c an au rc w :
  (len ti < 1 \/ 256 < len ti ->
   createPage json_dumps url_join post t ti c an au rc w
   = (inl (ValueError (Some "Title must be between 1 and 256 characters")), w) /\
   forall p,
     editPage json_dumps url_join post t p ti c an au rc w
     = (inl (ValueError (Some "Title must be between 1 and 256 characters")), w)) /\
  (1 <= len ti <= 256 -> too_long an 128 ->
   createPage json_dumps url_join post t ti c an au rc w
   = (inl (ValueError
             (Some "Author name must be between 0 and 128 characters")), w) /\
   forall p,
     editPage json_dumps url_join post t p ti c an au rc w
     = (inl (ValueError
               (Some "Author name must be between 0 and 128 characters")), w)) /\
  (1 <= len ti <= 256 -> ~ too_long an 128 -> too_long au 512 ->
   createPage json_dumps url_join post t ti c an au rc w
   = (inl (ValueError
             (Some "Author URL must be between 0 and 512 characters")), w) /\
   forall p,
     editPage json_dumps url_join post t p ti c an au rc w
     = (inl (ValueError
               (Some "Author URL must be between 0 and 512 characters")), w)).
Proof.
  split; [| split].
  - intros Hti. unfold createPage, editPage, raise.
    destruct (Z.leb_spec 1 (len ti)); destruct (Z.leb_spec (len ti) 256);
      try lia; now split.
  - intros Hti Han. unfold createPage, editPage.
    (destruct (Z.leb_spec 1 (len ti)); [| lia]).
    (destruct (Z.leb_spec (len ti) 256); [| lia]).
    cbn [andb negb]. unfold bind, lift.
    split; [| intros p];
      now rewrite put_checked_too_long by (assumption || lia).
  - intros Hti Han Hau. unfold createPage, editPage.
    (destruct (Z.leb_spec 1 (len ti)); [| lia]).
    (destruct (Z.leb_spec (len ti) 256); [| lia]).
    cbn [andb negb]. unfold bind, lift.
    split; [| intros p];
      rewrite put_checked_fits by assumption;
      now rewrite put_checked_too_long by (assumption || lia).
Qed.


End ClientMore.

(** ** The wire form determines the tree *)

Lemma NodeElement_induction (P : NodeElement -> Prop) :
  (forall t a cs,
      match cs with
      | Some cl =>
          Forall (fun c => match c with inl _ => True | inr e => P e end) cl
      | None => True
      end ->
      P (Build_NodeElement t a cs)) ->
  forall e, P e.
Proof.
  intros H. fix IH 1. intros [t a cs]. apply H.
  destruct cs as [cl|]; [| exact I].
  induction cl as [|c cl IHcl]; constructor.
  - destruct c as [s|e]; [exact I | apply IH].
  - exact IHcl.
Qed.

Lemma str_dict_inj a b : str_dict a = str_dict b -> a = b.
Proof.
  unfold str_dict. intros H. injection H as H. revert b H.
  induction a as [|[k v] a IH]; intros [|[k' v'] b] H; try discriminate H.
  - reflexivity.
  - simpl in H. injection H as -> -> H. f_equal. now apply IH.
Qed.

Lemma wire_children_inj (cl1 : list (string + NodeElement)) :
  Forall (fun c =>
            match c with
            | inl _ => True
            | inr e =>
                forall e2, to_dict e = to_dict e2 -> prune e = prune e2
            end) cl1 ->
  forall cl2,
    map wire cl1 = map wire cl2 ->
    map (fun child =>
           match child with
           | inl s => inl s
           | inr e' => inr (prune e')
           end) cl1
    = map (fun child =>
             match child with
             | inl s => inl s
             | inr e' => inr (prune e')
             end) cl2.
Proof.
  induction 1 as [|c cl1 Hc _ IH]; intros [|c2 cl2] H; try discriminate H.
  - reflexivity.
  - simpl in H. injection H as Hhead Htail. simpl. f_equal.
    + destruct c as [s|e], c2 as [s2|e2]; try discriminate Hhead.
      * now injection Hhead as ->.
      * injection Hhead as Hhead. f_equal. now apply Hc.
    + now apply IH.
Qed.

Lemma to_dict_gets e :
  Dict.get (to_dict e) "tag" = Some (PStr (tag e)) /\
  Dict.get (to_dict e) "attrs"
  = match attrs e with
    | Some (a :: al) => Some (str_dict (a :: al))
    | _ => None
    end /\
  Dict.get (to_dict e) "children"
  = match children e with
    | Some (c :: cl) => Some (PList (map wire (c :: cl)))
    | _ => None
    end.
Proof. destruct e as [t [[|a al]|] [[|c cl]|]]; repeat split. Qed.

Lemma Some_inj {A} (x y : A) : Some x = Some y -> x = y.
Proof. now inversion 1. Qed.

Lemma PList_inj l1 l2 : PList l1 = PList l2 -> l1 = l2.
Proof. now inversion 1. Qed.

Lemma PStr_inj s1 s2 : PStr s1 = PStr s2 -> s1 = s2.
Proof. now inversion 1. Qed.

Lemma to_dict_determines e1 :
  forall e2, to_dict e1 = to_dict e2 -> prune e1 = prune e2.
Proof.
  induction e1 as [t1 a1 cs1 IH] using NodeElement_induction.
  intros [t2 a2 cs2] H.
  destruct (to_dict_gets (Build_NodeElement t1 a1 cs1)) as (Ht1 & Ha1 & Hc1).
  destruct (to_dict_gets (Build_NodeElement t2 a2 cs2)) as (Ht2 & Ha2 & Hc2).
  rewrite H in Ht1, Ha1, Hc1.
  rewrite Ht2 in Ht1. rewrite Ha2 in Ha1. rewrite Hc2 in Hc1.
  clear H Ht2 Ha2 Hc2. cbn [tag attrs children] in *.
  apply Some_inj, PStr_inj in Ht1. subst t2.
  cbn [prune]. f_equal.
  - destruct a1 as [[|x1 a1]|], a2 as [[|x2 a2]|];
      try discriminate Ha1; try reflexivity.
    apply Some_inj, str_dict_inj in Ha1. now rewrite Ha1.
  - destruct cs1 as [[|c1 cs1]|], cs2 as [[|c2 cs2]|];
      try discriminate Hc1; try reflexivity.
    apply Some_inj, PList_inj in Hc1. symmetry in Hc1.
    now rewrite (wire_children_inj _ IH _ Hc1).
Qed.

Lemma to_dict_prune e : to_dict (prune e) = to_dict e.
Proof.
  induction e as [t a cs IH] using NodeElement_induction.
  assert (Hcs : forall cl,
             cs = Some cl ->
             map wire
               (map (fun child =>
                       match child with
                       | inl s => inl s
                       | inr e' => inr (prune e')
                       end) cl)
             = map wire cl).
  { intros cl ->. rewrite map_map. apply map_ext_Forall.
    eapply Forall_impl; [| exact IH].
    intros [s|e] He; [reflexivity | simpl; now rewrite He]. }
  destruct a as [[|x a]|], cs as [[|c cs]|]; try reflexivity;
    specialize (Hcs _ eq_refl); simpl in Hcs; injection Hcs as Hc Hcs;
    simpl; unfold wire in Hc, Hcs; now rewrite Hc, Hcs.
Qed.

(** X14: [to_dict] loses nothing but the difference between an empty and
    an absent [attrs] or [children]: two trees have the same wire form
    exactly when they are equal once every empty one, at any depth, is
    replaced by [None]. *)
Theorem to_dict_injective e1 e2 :
  to_dict e1 = to_dict e2 <-> prune e1 = prune e2.
Proof.
  split.
  - apply to_dict_determines.
  - intros H. rewrite <- (to_dict_prune e1), <- (to_dict_prune e2).
    now rewrite H.
Qed.

(** ** A session of calls *)

(** X15: whatever calls are awaited on a client, against whatever answers
    and with whatever failures in between, the Account it holds passes the
    validators of [Account] if the one it started with did; a fresh client
    holds none. *)
Theorem held_account_stays_valid repr json_dumps url_join steps w :
  valid_world w -> valid_world (session repr json_dumps url_join steps w).
Proof.
  revert w. induction steps as [|[post c] steps IH]; intros w Hw; [exact Hw |].
  simpl. apply IH.
  destruct (perform repr json_dumps url_join post c w) as [r w'] eqn:H.
  eapply perform_keeps_valid; eassumption.
Qed.

(** X16: a session of n calls appends at most n POSTs to the log and
    leaves the POSTs before it in place. *)
Theorem session_posts_bounded repr json_dumps url_join steps :
  forall w, exists sent,
    posts (session repr json_dumps url_join steps w) = (posts w ++ sent)%list /\
    (Datatypes.length sent <= Datatypes.length steps)%nat.
Proof.
  induction steps as [|[post c] steps IH]; intros w.
  - exists []. split; [now rewrite app_nil_r | apply le_n].
  - simpl.
    destruct (perform repr json_dumps url_join post c w) as [r w'] eqn:H.
    destruct (IH w') as (sent & Hsent & Hlen). simpl. rewrite Hsent.
    destruct (perform_posts _ _ _ _ _ _ _ _ H) as (one & -> & Hone).
    exists (one ++ sent)%list. rewrite <- app_assoc.
    split; [reflexivity |]. rewrite length_app. lia.
Qed.

(** ** The theorems at work *)

Lemma transport_failure_raised_witness :
  fst (perform repr0 dumps0 join0 (refuse "503") (GetPage "Sample-Page" false)
         (held account_T1))
  = inl (TransportError "503") /\
  account (snd (perform repr0 dumps0 join0 (refuse "503")
                  (GetPage "Sample-Page" false) (held account_T1)))
  = Some account_T1.
Proof.
  apply (transport_failure_raised repr0 dumps0 join0 (refuse "503")
           (GetPage "Sample-Page" false) (held account_T1) _ _
           "https://api.telegra.ph/getPage/Sample-Page"
           [("return_content", "false")] "503").
  - reflexivity.
  - reflexivity.
  - reflexivity.
Defined.

Lemma malformed_envelope_witness :
  fst (perform repr0 dumps0 join0 (answer (PDict no_error))
         (GetPage "Sample-Page" false) Telegraph_init)
  = inl (KeyError "error").
Proof.
  refine (proj1 (proj2 (proj2
            (malformed_envelope repr0 dumps0 join0 (answer (PDict no_error))
               (GetPage "Sample-Page" false) Telegraph_init _
               (snd (perform repr0 dumps0 join0 (answer (PDict no_error))
                       (GetPage "Sample-Page" false) Telegraph_init))
               (PDict no_error) _ _)))
            no_error (PBool false) _ _ _).
  - reflexivity.
  - eexists. eexists. split; reflexivity.
  - reflexivity.
  - reflexivity.
  - reflexivity.
Defined.

Lemma one_post_per_call_witness :
  (snd (perform repr0 dumps0 join0 (answer (PDict not_found))
          (GetViews "Sample-Page" (Some 2024) None None None) Telegraph_init)
   = Telegraph_init /\
   checks_arguments (GetViews "Sample-Page" (Some 2024) None None None) = true /\
   exists msg,
     fst (perform repr0 dumps0 join0 (answer (PDict not_found))
            (GetViews "Sample-Page" (Some 2024) None None None) Telegraph_init)
     = inl (ValueError (Some msg))) \/
  (exists data,
      posts (snd (perform repr0 dumps0 join0 (answer (PDict not_found))
                    (GetViews "Sample-Page" (Some 2024) None None None)
                    Telegraph_init))
      = (posts Telegraph_init
         ++ [(join0 API_URL
                (endpoint (GetViews "Sample-Page" (Some 2024) None None None)),
              data)])%list).
Proof.
  apply (one_post_per_call repr0 dumps0 join0 (answer (PDict not_found))
           (GetViews "Sample-Page" (Some 2024) None None None) Telegraph_init).
  reflexivity.
Defined.

Lemma page_calls_keep_account_witness :
  account (snd (perform repr0 dumps0 join0 (answer (PDict one_page))
                  (GetPageList "T1" 0 50) (held account_T1)))
  = Some account_T1.
Proof.
  apply (page_calls_keep_account repr0 dumps0 join0 (answer (PDict one_page))
           (GetPageList "T1" 0 50) (held account_T1)
           (inr (EPageList (PageList.Build (PInt 1) [sample_page])))).
  - reflexivity.
  - reflexivity.
Defined.

Lemma Account_init_accepts_witness :
  kwargs_fit Account.params ["short_name"]
    [("short_name", PStr "new"); ("access_token", PStr "T1")] /\
  valid_account account_new /\
  account_new
  = Account.Build
      (arg [("short_name", PStr "new"); ("access_token", PStr "T1")] "short_name")
      (arg [("short_name", PStr "new"); ("access_token", PStr "T1")] "author_name")
      (arg [("short_name", PStr "new"); ("access_token", PStr "T1")] "author_url")
      (arg [("short_name", PStr "new"); ("access_token", PStr "T1")] "access_token")
      (arg [("short_name", PStr "new"); ("access_token", PStr "T1")] "auth_url")
      (arg [("short_name", PStr "new"); ("access_token", PStr "T1")] "page_count").
Proof.
  apply (proj1 (Account_init_accepts repr0
                  [("short_name", PStr "new"); ("access_token", PStr "T1")]
                  account_new)).
  reflexivity.
Defined.

Lemma held_account_stays_valid_witness :
  valid_world
    (session repr0 dumps0 join0
       [(answer (PDict renamed), EditAccountInfo "T1" (Some "new") None None);
        (refuse "503", RevokeAccessToken "T1")]
       (held account_T1)).
Proof.
  apply (held_account_stays_valid repr0 dumps0 join0
           [(answer (PDict renamed), EditAccountInfo "T1" (Some "new") None None);
            (refuse "503", RevokeAccessToken "T1")]
           (held account_T1)).
  unfold valid_world, valid_account, len. simpl.
  split; [exists "old"; split; [reflexivity | simpl; lia] |].
  split; left; reflexivity.
Defined.

Lemma repeated_call_same_result_witness :
  exists w2,
    perform repr0 dumps0 join0 (answer (PDict renamed))
      (EditAccountInfo "T1" (Some "new") None None)
      (Build_world (Some account_new)
         [("https://api.telegra.ph/editAccountInfo",
           [("access_token", "T1"); ("short_name", "new")])])
    = (inr (EAccount (Some account_new)), w2) /\
    account w2
    = account (Build_world (Some account_new)
                 [("https://api.telegra.ph/editAccountInfo",
                   [("access_token", "T1"); ("short_name", "new")])]).
Proof.
  apply (repeated_call_same_result repr0 dumps0 join0 (answer (PDict renamed))
           (EditAccountInfo "T1" (Some "new") None None) (held account_T1)).
  reflexivity.
Defined.


Lemma page_request_sent_witness :
  exists data,
    posts (snd (createPage dumps0 join0 (answer (PDict not_found)) "T1" "Sample"
                  [inl "Hello"] (Some "") None true Telegraph_init))
    = (posts Telegraph_init ++ [(join0 API_URL "createPage", data)])%list /\
    Dict.get data "access_token" = Some "T1" /\
    Dict.get data "path" = None /\
    Dict.get data "title" = Some "Sample" /\
    Dict.get data "content" = Some (dumps0 (PList (map wire [inl "Hello"]))) /\
    Dict.get data "return_content" = Some (str_bool_lower true) /\
    Dict.get data "author_name" = sent_if (Some "") /\
    Dict.get data "author_url" = sent_if None.
Proof.
  refine (proj1 (page_request_sent dumps0 join0 (answer (PDict not_found))
                   "T1" "Sample" [inl "Hello"] (Some "") None true
                   Telegraph_init _ _ _)).
  - unfold len. simpl. lia.
  - intros (s & Hs & Hlen). inversion Hs. subst s. unfold len in Hlen.
    simpl in Hlen. lia.
  - intros (s & Hs & _). discriminate Hs.
Defined.

Lemma to_dict_injective_witness :
  to_dict (Build_NodeElement "p" (Some []) (Some [inl "hi"]))
  = to_dict (Build_NodeElement "p" None (Some [inl "hi"])).
Proof.
  apply (proj2 (to_dict_injective
                  (Build_NodeElement "p" (Some []) (Some [inl "hi"]))
                  (Build_NodeElement "p" None (Some [inl "hi"])))).
  reflexivity.
Defined.

Lemma returned_entity_typed_witness :
  entity_typed (EPageList (PageList.Build (PInt 1) [sample_page])) /\
  (is_account_call (GetPageList "T1" 0 50) = true ->
   EPageList (PageList.Build (PInt 1) [sample_page])
   = EAccount
       (account
          (Build_world None
             [("https://api.telegra.ph/getPageList",
               [("access_token", "T1"); ("offset", "0"); ("limit", "50")])]))).
Proof.
  apply (returned_entity_typed repr0 dumps0 join0 (answer (PDict one_page))
           (GetPageList "T1" 0 50) Telegraph_init).
  - exact I.
  - reflexivity.
Defined.

Lemma Page_init_accepts_witness :
  kwargs_fit Page.params ["path"; "url"; "title"; "description"]
    [("path", PStr "Sample-Page");
     ("url", PStr "https://telegra.ph/Sample-Page");
     ("title", PStr "Sample"); ("description", PStr "")] /\
  page_typed sample_page /\
  sample_page
  = Page.Build (PStr "Sample-Page") (PStr "https://telegra.ph/Sample-Page")
      (PStr "Sample") (PStr "") PNone PNone PNone PNone PNone PNone.
Proof.
  apply (proj1 (Page_init_accepts
                  [("path", PStr "Sample-Page");
                   ("url", PStr "https://telegra.ph/Sample-Page");
                   ("title", PStr "Sample"); ("description", PStr "")]
                  sample_page)).
  reflexivity.
Defined.

Lemma page_argument_messages_witness :
  createPage dumps0 join0 (answer (PDict not_found)) "T1" "" [] None None false
    Telegraph_init
  = (inl (ValueError (Some "Title must be between 1 and 256 characters")),
     Telegraph_init).
Proof.
  refine (proj1 (proj1 (page_argument_messages dumps0 join0
                          (answer (PDict not_found)) "T1" "" [] None None
                          false Telegraph_init) _)).
  left. unfold len. simpl. lia.
Defined.
